(** * Training sets for the chemical-interpolation test

    A shallow embedding of [chemical-interpolation/create-training-sets.ipynb]:
    the cleaning of the OQMD table, the two hold-out filters, the derived
    training set and the properties that the written specification states
    about them.

    A dataframe is a list of rows, each row carrying its index label.
    Strings are Rocq strings, the [set()] of system labels is a [gset],
    float64 cells are IEEE-754 values in the sense of [SpecFloat], so that
    every comparison with NaN is false as it is in pandas.  The two external
    libraries of the notebook (the conversions of pandas between floats and
    text, and the composition class of pymatgen) are interfaces, given as
    type classes;
    a small reference instance is provided so that everything can be run. *)

From Stdlib Require Import ZArith QArith Qpower String Ascii List SpecFloat.
From stdpp Require Import base decidable option list strings sorting gmap sets pretty.

#[local] Set Warnings "-clear-no-such-hyp".

(** ** Python string operations used by the notebook *)

Module PyStr.

(** [sep.join(xs)] *)
Fixpoint join (sep : string) (xs : list string) : string :=
  match xs with
  | [] => ""
  | x :: rest =>
      match rest with
      | [] => x
      | _ :: _ => x +:+ sep +:+ join sep rest
      end
  end.

(** [s.split(sep)] for a separator of one character; the notebook only
    splits on the hyphen.  The result is never empty: [''.split('-')] is
    [['']]. *)
Fixpoint split (sep : ascii) (s : string) : list string :=
  match s with
  | EmptyString => [""]
  | String c s' =>
      if Ascii.eqb c sep then "" :: split sep s'
      else match split sep s' with
           | [] => [String c ""]
           | w :: ws => String c w :: ws
           end
  end.

(** [c not in s] for a character [c] *)
Fixpoint free_of (c : ascii) (s : string) : bool :=
  match s with
  | EmptyString => true
  | String d s' => negb (Ascii.eqb d c) && free_of c s'
  end.

(** [sorted(xs)] on strings: ascending, code point by code point. *)
Definition sorted (xs : list string) : list string := merge_sort String.le xs.

End PyStr.

(** The hyphen that separates the elements of a system label. *)
Definition hyphen : ascii := "-"%char.

(** The shape of an element symbol: a capital letter followed by small
    letters ("Na", "Fe", "O").  This is also the shape that keeps the text
    of the query of the quaternary filter well formed. *)
Definition is_upper (c : ascii) : bool :=
  (65 <=? nat_of_ascii c)%nat && (nat_of_ascii c <=? 90)%nat.
Definition is_lower (c : ascii) : bool :=
  (97 <=? nat_of_ascii c)%nat && (nat_of_ascii c <=? 122)%nat.

Fixpoint all_lower (s : string) : bool :=
  match s with
  | EmptyString => true
  | String c s' => is_lower c && all_lower s'
  end.

Definition is_symbol (s : string) : bool :=
  match s with
  | EmptyString => false
  | String c s' => is_upper c && all_lower s'
  end.

(** ** float64 cells *)

Module Float64.

(** The float64 value of a Python [int] literal. *)
Definition of_int (z : Z) : spec_float := binary_normalize 53 1024 z 0 false.

(** A float64 in canonical form: the mantissa has 53 bits, or fewer at the
    least exponent. *)
Definition valid (x : spec_float) : bool := valid_binary 53 1024 x.

(** The number that a float64 stands for; infinities and NaN stand for
    none. *)
Definition value (x : spec_float) : option Q :=
  match x with
  | S754_zero _ => Some 0%Q
  | S754_finite s m e => Some (inject_Z (if s then Z.neg m else Z.pos m) * 2 ^ e)%Q
  | S754_infinity _ | S754_nan => None
  end.

(** [np.isnan] *)
Definition isna (x : spec_float) : bool :=
  match x with S754_nan => true | _ => false end.

(** [x > y] and [x < y]: false as soon as one side is NaN. *)
Definition gt (x y : spec_float) : bool := SFltb y x.
Definition lt (x y : spec_float) : bool := SFltb x y.

(** The order of an ascending [sort_values]: IEEE [<=] on numbers, missing
    values last ([na_position='last'], the default). *)
Definition le_na_last (x y : spec_float) : bool :=
  isna y || (negb (isna x) && SFleb x y).

(** The place of a number on the line, as three integers compared from
    left to right: its class (negative infinity, negative, zero, positive,
    positive infinity), then exponent and mantissa, both negated for a
    negative number.  IEEE [<=] is the lexicographic order of the ranks. *)
Definition rank (x : spec_float) : Z * Z * Z :=
  match x with
  | S754_nan => (3, 0, 0)
  | S754_infinity true => (-2, 0, 0)
  | S754_infinity false => (2, 0, 0)
  | S754_zero _ => (0, 0, 0)
  | S754_finite true m e => (-1, - e, Z.neg m)
  | S754_finite false m e => (1, e, Z.pos m)
  end%Z.

Definition rank_le (a b : Z * Z * Z) : Prop :=
  (a.1.1 < b.1.1 ∨ (a.1.1 = b.1.1 ∧ (a.1.2 < b.1.2 ∨ (a.1.2 = b.1.2 ∧ a.2 ≤ b.2))))%Z.

End Float64.

(** ** External libraries *)

(** A cell of a column that pandas has not converted yet: [read_csv] leaves
    a number where the whole column parsed, and text in a column of mixed
    type. *)
Inductive cell : Type :=
  | Number (x : spec_float)
  | Text (s : string).

(** The texts that [read_csv] reads as a missing value, in every column
    ([STR_NA_VALUES] of pandas 2; ["<NA>"] and ["None"] are the latest to
    have joined the list).  A field with such a text is not a string in the
    frame but the float NaN.  A row of this development keeps the text of
    its fields, and each place that reads a field asks [isna_text] first. *)
Definition na_values : list string :=
  [ ""; "#N/A"; "#N/A N/A"; "#NA"; "-1.#IND"; "-1.#QNAN"; "-NaN"; "-nan";
    "1.#IND"; "1.#QNAN"; "<NA>"; "N/A"; "NA"; "NULL"; "NaN"; "None";
    "n/a"; "nan"; "null" ].

Definition isna_text (s : string) : bool := bool_decide (s ∈ na_values).

(** pandas: [str_to_float] is the numeric reading of a text cell, [None]
    when the text is not a number; [float_to_str] is the text that [to_csv]
    writes for a float64 other than NaN (numpy's text of the float). *)
Class Pandas := {
  str_to_float : string → option spec_float;
  float_to_str : spec_float → string
}.

(** pymatgen: [Composition_str s] is [Composition(s)] for a string [s], the
    parse of a formula ([None] stands for the exception it raises),
    [reduced_formula] is the property of that name, [symbols c] is
    [[y.symbol for y in c]], the element symbols in the iteration order of
    the composition. *)
Class Pymatgen := {
  comp_obj : Type;
  Composition_str : string → option comp_obj;
  reduced_formula : comp_obj → string;
  symbols : comp_obj → list string;
  symbols_wf : ∀ s c, Composition_str s = Some c → Forall (λ y, is_symbol y = true) (symbols c)
}.

(** [Composition(x)] for the cell [x] that [read_csv] made of the text of a
    [comp] field.  When the text is one of [na_values] the cell is the
    missing value, a float, and [Composition] raises on it; otherwise the
    cell is the text itself and the formula is parsed. *)
Definition Composition `{Pymatgen} (text : string) : option comp_obj :=
  if isna_text text then None else Composition_str text.

(** ** Rows and dataframes *)

(** The seven columns of [oqmd_all.data] with the index label of the row.
    [I] is the type of the label, [V] the type of a numeric cell. *)
Record Row (I V : Type) : Type := mkRow {
  index : I;
  comp : string;
  energy_pa : V;
  volume_pa : V;
  magmom_pa : V;
  bandgap : V;
  delta_e : V;
  stability : V
}.
Arguments mkRow {I V}.
Arguments index {I V}.
Arguments comp {I V}.
Arguments energy_pa {I V}.
Arguments volume_pa {I V}.
Arguments magmom_pa {I V}.
Arguments bandgap {I V}.
Arguments delta_e {I V}.
Arguments stability {I V}.

(** A line of the input file has no label yet. *)
Definition Line : Type := Row () cell.

(** [pd.read_csv(..., delim_whitespace=True)]: the lines in file order under
    a [RangeIndex].  The fields keep their text; those that pandas reads as
    missing are recognised by [isna_text] where they are used, in
    [to_numeric] and in [Composition]. *)
Definition labelled (i : nat) (l : Line) : Row nat cell :=
  mkRow i (comp l) (energy_pa l) (volume_pa l) (magmom_pa l)
          (bandgap l) (delta_e l) (stability l).

Definition read_csv (table : list Line) : list (Row nat cell) :=
  imap labelled table.

Section Loader.
Context `{Pandas} `{Pymatgen}.

(** [pd.to_numeric(col, errors='coerce')] on one cell.  A text that
    [read_csv] reads as missing is NaN already; another text is parsed, and
    is NaN when it is not a number. *)
Definition to_numeric (c : cell) : spec_float :=
  match c with
  | Number x => x
  | Text s =>
      if isna_text s then S754_nan
      else match str_to_float s with Some x => x | None => S754_nan end
  end.

(** [for col in oqmd_data.columns: if col == 'comp': continue; ...] *)
Definition to_numeric_columns (r : Row nat cell) : Row nat spec_float :=
  mkRow (index r) (comp r) (to_numeric (energy_pa r)) (to_numeric (volume_pa r))
        (to_numeric (magmom_pa r)) (to_numeric (bandgap r))
        (to_numeric (delta_e r)) (to_numeric (stability r)).

(** The row predicate of [query('delta_e > -20 and delta_e < 5')]. *)
Definition delta_e_in_range (r : Row nat spec_float) : bool :=
  Float64.gt (delta_e r) (Float64.of_int (-20)) && Float64.lt (delta_e r) (Float64.of_int 5).

Definition query_delta_e (df : list (Row nat spec_float)) : list (Row nat spec_float) :=
  filter (λ r, delta_e_in_range r = true) df.

(** A row with the columns [comp_obj] and [pretty_comp]. *)
Record Parsed : Type := mkParsed {
  row :> Row nat spec_float;
  comp_obj_of : comp_obj;
  pretty_comp : string
}.

(** [oqmd_data['comp'].apply(lambda x: Composition(x))] followed by
    [oqmd_data['comp_obj'].apply(lambda x: x.reduced_formula)], on one row. *)
Definition add_comp_obj (r : Row nat spec_float) : option Parsed :=
  c ← Composition (comp r);
  Some (mkParsed r c (reduced_formula c)).

(** [sort_values('delta_e', ascending=True)].  pandas does not promise an
    order among equal keys; the proofs below use only that the result is a
    sorted rearrangement of the frame. *)
Definition delta_e_le (r1 r2 : Parsed) : Prop :=
  Float64.le_na_last (delta_e r1) (delta_e r2) = true.

#[global] Instance delta_e_le_dec : RelDecision delta_e_le.
Proof. intros r1 r2. unfold delta_e_le. apply _. Defined.

Definition sort_values (df : list Parsed) : list Parsed :=
  merge_sort delta_e_le df.

(** [drop_duplicates('pretty_comp', keep='first')]: a row is kept when its
    formula has not been seen in an earlier row. *)
Fixpoint drop_duplicates_from (seen : gset string) (df : list Parsed) : list Parsed :=
  match df with
  | [] => []
  | r :: rest =>
      if decide (pretty_comp r ∈ seen) then drop_duplicates_from seen rest
      else r :: drop_duplicates_from ({[pretty_comp r]} ∪ seen) rest
  end.

Definition drop_duplicates (df : list Parsed) : list Parsed :=
  drop_duplicates_from ∅ df.

(** A row of the cleaned frame: the columns [nelems] and [system] added. *)
Record Entry : Type := mkEntry {
  parsed :> Parsed;
  nelems : nat;
  system : string
}.

(** [len(x)] and ["-".join([y.symbol for y in x])] *)
Definition add_system (r : Parsed) : Entry :=
  mkEntry r (length (symbols (comp_obj_of r))) (PyStr.join "-" (symbols (comp_obj_of r))).

(** The frame after [to_numeric] and the range query. *)
Definition in_range_rows (table : list Line) : list (Row nat spec_float) :=
  query_delta_e (to_numeric_columns <$> read_csv table).

(** The cells of the notebook down to the [system] column, in order.
    [None] is the exception that [Composition] raises, on a missing value
    or on a formula that does not parse. *)
Definition load_oqmd (table : list Line) : option (list Entry) :=
  df ← mapM add_comp_obj (in_range_rows table);
  Some (add_system <$> drop_duplicates (sort_values df)).

End Loader.

(** ** The hold-out filters *)

(** [itertools.product] of a list of pools: the last position varies
    fastest. *)
Fixpoint product {A} (pools : list (list A)) : list (list A) :=
  match pools with
  | [] => [[]]
  | pool :: rest => x ← pool; t ← product rest; [x :: t]
  end.

(** ["-".join(sorted(set(comb)))] *)
Definition label_of (comb : list string) : string :=
  PyStr.join "-" (PyStr.sorted (elements (list_to_set comb : gset string))).

Module Quaternary.
Section defs.
Context `{Pymatgen}.

(** The loop that fills [systems]: one label for each tuple of the product
    of [len(elems)] copies of [elems], added to the set. *)
Definition constituent_systems (elems : list string) : gset string :=
  foldl (λ systems comb, {[label_of comb]} ∪ systems) ∅
        (product (replicate (length elems) elems)).

(** [oqmd_data.query(' or '.join('system=="%s"'%s for s in systems))]: the
    rows whose label is one of [systems], in the order of the frame. *)
Definition get_test_data (oqmd_data : list Entry) (elems : list string) : list Entry :=
  filter (λ r, system r ∈ constituent_systems elems) oqmd_data.

End defs.
End Quaternary.

Module Pairwise.
Section defs.
Context `{Pymatgen}.

(** [all([e in x.split("-") for e in elems])] *)
Definition hit (elems : list string) (x : string) : bool :=
  forallb (λ e, bool_decide (e ∈ PyStr.split hyphen x)) elems.

(** [oqmd_data[hit]] *)
Definition get_test_data (oqmd_data : list Entry) (elems : list string) : list Entry :=
  filter (λ r, hit elems (system r) = true) oqmd_data.

End defs.
End Pairwise.

(** ** The training set *)

(** [Index.unique()]: each label once, in the order of first appearance. *)
Fixpoint unique (labels : list nat) : list nat :=
  match labels with
  | [] => []
  | l :: rest => l :: filter (λ k, k ≠ l) (unique rest)
  end.

(** [this.difference(other)] on index labels: the labels of [this] that are
    not in [other], each once.  pandas returns them in ascending order,
    except when [other] is empty: then the result is [this.unique()], not
    sorted.  (Two equal indexes give the empty index at once, which is also
    what the general case gives.) *)
Definition index_difference (this other : list nat) : list nat :=
  match other with
  | [] => unique this
  | _ :: _ => merge_sort le (filter (λ i, i ∉ other) (unique this))
  end.

Section Train.
Context `{Pymatgen}.

(** The index of a frame. *)
Definition index_of (df : list Entry) : list nat := (λ r : Entry, index r) <$> df.

(** [df.loc[labels]]: for each label in turn the rows that carry it; a
    label that no row carries is a [KeyError], here [None]. *)
Definition loc (df : list Entry) (labels : list nat) : option (list Entry) :=
  rows ← mapM (λ l, match filter (λ r : Entry, index r = l) df with
                    | [] => None
                    | r :: rs => Some (r :: rs)
                    end) labels;
  Some (concat rows).

(** [oqmd_data.loc[oqmd_data.index.difference(test_set.index)]] *)
Definition train_set_of (oqmd_data test_set : list Entry) : option (list Entry) :=
  loc oqmd_data (index_difference (index_of oqmd_data) (index_of test_set)).

(** The element set of an entry. *)
Definition element_set (r : Entry) : gset string := list_to_set (symbols (comp_obj_of r)).

(** [data[['comp','delta_e']]]: the two columns that [save_magpie] hands to
    [to_csv], in the order of the rows and without the index.  The text
    that [to_csv] makes of them is [to_csv] below. *)
Definition save_magpie (data : list Entry) : list (string * spec_float) :=
  (λ r : Entry, (comp r, delta_e r)) <$> data.

End Train.

(** ** The subsets of a target, enumerated directly

    This is the enumeration that the specification describes for the
    quaternary filter: every non-empty subset of the target, each turned
    into its label. *)

(** All sub-lists of a list (each element kept or dropped). *)
Fixpoint sublists {A} (l : list A) : list (list A) :=
  match l with
  | [] => [[]]
  | x :: rest => ((x ::.) <$> sublists rest) ++ sublists rest
  end.

Definition powerset_systems (elems : list string) : gset string :=
  list_to_set (label_of <$> filter (λ s, s ≠ []) (sublists elems)).

Module PowerSet.
Section defs.
Context `{Pymatgen}.

(** The quaternary filter with the direct enumeration in place of the
    product. *)
Definition get_test_data (oqmd_data : list Entry) (elems : list string) : list Entry :=
  filter (λ r, system r ∈ powerset_systems elems) oqmd_data.

End defs.
End PowerSet.

(** ** The frequency of the systems

    [oqmd_data['system'].value_counts()[:10]]: every distinct label with the
    number of rows that carry it, the most frequent first, cut after ten.
    pandas does not promise an order among equal counts; the proofs use only
    that the result is sorted and lists each label once. *)

Definition count_of (s : string) (col : list string) : nat :=
  length (filter (λ x, x = s) col).

Definition more_frequent (a b : string * nat) : Prop := b.2 ≤ a.2.

#[global] Instance more_frequent_dec : RelDecision more_frequent.
Proof. intros a b. unfold more_frequent. apply _. Defined.

Definition value_counts (col : list string) : list (string * nat) :=
  merge_sort more_frequent ((λ s, (s, count_of s col)) <$> remove_dups col).

Section Frequency.
Context `{Pymatgen}.

Definition top_systems (oqmd_data : list Entry) : list (string * nat) :=
  take 10 (value_counts ((λ r : Entry, system r) <$> oqmd_data)).

End Frequency.

(** ** The exported files *)

Module OsPath.

Definition starts_with_sep (s : string) : bool :=
  match s with
  | String c _ => Ascii.eqb c "/"
  | EmptyString => false
  end.

Fixpoint ends_with_sep (s : string) : bool :=
  match s with
  | EmptyString => false
  | String c EmptyString => Ascii.eqb c "/"
  | String _ s' => ends_with_sep s'
  end.

(** [os.path.join(a, b)] on a POSIX system: [b] alone when it is absolute,
    otherwise [a] and [b] with one separator between them. *)
Definition join (a b : string) : string :=
  if starts_with_sep b then b
  else if String.eqb a "" || ends_with_sep a then a +:+ b
  else a +:+ "/" +:+ b.

End OsPath.

(** ['%s_test_set.data' % name] and ['%s_train_set.data' % name] *)
Definition test_set_data (name : string) : string := name +:+ "_test_set.data".
Definition train_set_data (name : string) : string := name +:+ "_train_set.data".

(** The four paths of the notebook: the symbols of the quaternary are
    concatenated, those of the pair are joined by hyphens. *)
Definition quaternary_test_path (my_system : list string) : string :=
  OsPath.join "datasets" (test_set_data (PyStr.join "" my_system)).
Definition quaternary_train_path (my_system : list string) : string :=
  OsPath.join "datasets" (train_set_data (PyStr.join "" my_system)).
Definition pair_test_path (my_pair : list string) : string :=
  OsPath.join "datasets" (test_set_data (PyStr.join "-" my_pair)).
Definition pair_train_path (my_pair : list string) : string :=
  OsPath.join "datasets" (train_set_data (PyStr.join "-" my_pair)).

Section Saving.
Context `{Pymatgen}.

(** [save_magpie(data, path)] as a step on the files: a map from paths to
    the columns written, in which writing to a path replaces what the path
    held.  The directory of the path is taken to exist: [to_csv] raises
    when it does not, and the notebook does not create it. *)
Definition save_magpie_to (data : list Entry) (path : string)
    (files : gmap string (list (string * spec_float))) : gmap string (list (string * spec_float)) :=
  <[path := save_magpie data]> files.

(** [df.sample(n)], with which each of the two cells that build a test set
    ends: [n] rows drawn at random and without replacement, shown and not
    used again.  It raises a [ValueError] ([None]) when the frame has fewer
    than [n] rows; this is all that the rest of the notebook can see of
    it, and all that is modelled. *)
Definition sample (n : nat) (df : list Entry) : option () :=
  if decide (n ≤ length df) then Some () else None.

(** The cells of the notebook from the quaternary hold-out to the last
    export, in order: each test set is cut out of the whole frame and five
    of its rows are shown, each training set is derived from it, and the
    four sets are saved.  The two cells that print the deviations of the
    test set raise nothing and change nothing; they are left out. *)
Definition export_holdouts (oqmd_data : list Entry) (my_system my_pair : list string)
    (files : gmap string (list (string * spec_float)))
  : option (gmap string (list (string * spec_float))) :=
  let test_set := Quaternary.get_test_data oqmd_data my_system in
  _ ← sample 5 test_set;
  train_set ← train_set_of oqmd_data test_set;
  let files := save_magpie_to test_set (quaternary_test_path my_system) files in
  let files := save_magpie_to train_set (quaternary_train_path my_system) files in
  let test_set := Pairwise.get_test_data oqmd_data my_pair in
  _ ← sample 5 test_set;
  train_set ← train_set_of oqmd_data test_set;
  let files := save_magpie_to test_set (pair_test_path my_pair) files in
  Some (save_magpie_to train_set (pair_train_path my_pair) files).

End Saving.

(** ** The text of an exported file *)

(** The writer of Python's [csv] module as [to_csv] drives it: minimal
    quoting, the double quote as quote character, a quote inside a field
    doubled. *)
Module Csv.

Definition quotechar : ascii := "034"%char.
Definition LF : ascii := "010"%char.
Definition CR : ascii := "013"%char.
Definition TAB : ascii := "009"%char.

Fixpoint any_char (p : ascii → bool) (s : string) : bool :=
  match s with
  | EmptyString => false
  | String c s' => p c || any_char p s'
  end.

(** A field is quoted when it holds the delimiter, the quote character or
    a line break. *)
Definition special (sep c : ascii) : bool :=
  Ascii.eqb c sep || Ascii.eqb c quotechar || Ascii.eqb c LF || Ascii.eqb c CR.

Definition needs_quotes (sep : ascii) (field : string) : bool := any_char (special sep) field.

Fixpoint double_quotes (s : string) : string :=
  match s with
  | EmptyString => EmptyString
  | String c s' =>
      if Ascii.eqb c quotechar then String c (String c (double_quotes s'))
      else String c (double_quotes s')
  end.

Definition write_field (sep : ascii) (field : string) : string :=
  if needs_quotes sep field
  then String quotechar (double_quotes field +:+ String quotechar "")
  else field.

(** [writer.writerow(fields)] with the line feed as line terminator. *)
Definition write_row (sep : ascii) (fields : list string) : string :=
  PyStr.join (String sep "") (write_field sep <$> fields) +:+ String LF "".

End Csv.

(** The tokenizer of [read_csv] for [delim_whitespace=True], with the
    defaults of the notebook's call: fields are separated by runs of blanks
    and tabs, a line feed or a carriage return ends a line, a line without
    a field is skipped, a field that starts with the quote character runs
    to the closing one, with a doubled quote standing for a quote. *)
Module Tokenizer.

Inductive state : Type :=
  | START_RECORD            (* nothing but blanks on this line so far *)
  | EAT_WHITESPACE          (* after a field *)
  | IN_FIELD
  | IN_QUOTED_FIELD
  | QUOTE_IN_QUOTED_FIELD.  (* a quote has been met in a quoted field *)

Definition is_whitespace (c : ascii) : bool := Ascii.eqb c " " || Ascii.eqb c Csv.TAB.
Definition is_terminator (c : ascii) : bool := Ascii.eqb c Csv.LF || Ascii.eqb c Csv.CR.
Definition is_quote (c : ascii) : bool := Ascii.eqb c Csv.quotechar.

(** [push c field] is the field with one more character. *)
Definition push (c : ascii) (field : string) : string := field +:+ String c "".

(** The rows of fields of a text, read from state [st] with [field] and
    [row] under way.  A text that ends inside a quoted field is an error
    ([None]). *)
Fixpoint tokenize_from (st : state) (field : string) (row : list string) (text : string)
  : option (list (list string)) :=
  match text with
  | EmptyString =>
      match st with
      | START_RECORD => Some []
      | EAT_WHITESPACE => Some [row]
      | IN_FIELD | QUOTE_IN_QUOTED_FIELD => Some [row ++ [field]]
      | IN_QUOTED_FIELD => None
      end
  | String c rest =>
      match st with
      | START_RECORD =>
          if is_terminator c || is_whitespace c then tokenize_from START_RECORD "" [] rest
          else if is_quote c then tokenize_from IN_QUOTED_FIELD "" [] rest
          else tokenize_from IN_FIELD (String c "") [] rest
      | EAT_WHITESPACE =>
          if is_terminator c then cons row <$> tokenize_from START_RECORD "" [] rest
          else if is_whitespace c then tokenize_from EAT_WHITESPACE "" row rest
          else if is_quote c then tokenize_from IN_QUOTED_FIELD "" row rest
          else tokenize_from IN_FIELD (String c "") row rest
      | IN_FIELD =>
          if is_terminator c
          then cons (row ++ [field]) <$> tokenize_from START_RECORD "" [] rest
          else if is_whitespace c then tokenize_from EAT_WHITESPACE "" (row ++ [field]) rest
          else tokenize_from IN_FIELD (push c field) row rest
      | IN_QUOTED_FIELD =>
          if is_quote c then tokenize_from QUOTE_IN_QUOTED_FIELD field row rest
          else tokenize_from IN_QUOTED_FIELD (push c field) row rest
      | QUOTE_IN_QUOTED_FIELD =>
          if is_quote c then tokenize_from IN_QUOTED_FIELD (push c field) row rest
          else if is_terminator c
          then cons (row ++ [field]) <$> tokenize_from START_RECORD "" [] rest
          else if is_whitespace c then tokenize_from EAT_WHITESPACE "" (row ++ [field]) rest
          else tokenize_from IN_FIELD (push c field) row rest
      end
  end.

Definition tokenize (text : string) : option (list (list string)) :=
  tokenize_from START_RECORD "" [] text.

End Tokenizer.

Section Text.
Context `{Pandas}.

(** The text of a float in the file: [na_rep], the empty text, for NaN. *)
Definition float_text (x : spec_float) : string :=
  if Float64.isna x then "" else float_to_str x.

(** [columns.to_csv(path, index=False, sep=' ')]: the text that is written,
    a line with the two names and a line for each row. *)
Definition to_csv (columns : list (string * spec_float)) : string :=
  Csv.write_row " " ["comp"; "delta_e"] +:+
  PyStr.join "" ((λ row, Csv.write_row " " [row.1; float_text row.2]) <$> columns).


(** A field of the [comp] column as [read_csv] leaves it: the missing value
    ([None]) for a text of [na_values], and the text otherwise. *)
Definition read_field (text : string) : option string :=
  if isna_text text then None else Some text.

(** A line of two fields; a line that stops after the first field has a
    missing number, and a line with more fields than names is an error.
    (Where the first lines of a file have more fields than names pandas
    takes the surplus for an index instead; [to_csv] writes no such line
    for fields that are one field each.) *)
Definition read_row (fields : list string) : option (option string * spec_float) :=
  match fields with
  | [c] => Some (read_field c, S754_nan)
  | [c; d] => Some (read_field c, to_numeric (Text d))
  | _ => None
  end.

(** Modelled from the spec: the re-reading of an exported file.  The
    repository writes these files and never reads them, and the
    specification speaks of exporting a set and re-reading it; the file is
    read here as the notebook reads its input, with
    [read_csv(..., delim_whitespace=True)] and [to_numeric] on the number,
    and the two columns are asked for by name.  As in the loader a
    composition is kept as the text of its field. *)
Definition read_magpie (text : string) : option (list (option string * spec_float)) :=
  rows ← Tokenizer.tokenize text;
  match rows with
  | header :: lines =>
      if decide (header = ["comp"; "delta_e"]) then mapM read_row lines else None
  | [] => None
  end.


End Text.

(** ** A reference instance of the two libraries

    Enough of pandas and pymatgen to run the notebook on small tables:
    decimal numbers, and formulas that are a sequence of element symbols,
    each followed by an optional whole amount ("Na2O", "Fe2O3").  As in
    pymatgen the composition is a dictionary filled while the formula is
    read from left to right, and iterating over it yields the elements in
    the order of their first occurrence in the formula. *)

Module Reference.

(** [sym_dict[el] += amt] on a dictionary kept in insertion order. *)
Fixpoint add_amount (el : string) (amt : nat) (d : list (string * nat)) : list (string * nat) :=
  match d with
  | [] => [(el, amt)]
  | (k, v) :: rest =>
      if String.eqb k el then (k, v + amt) :: rest
      else (k, v) :: add_amount el amt rest
  end.

(** The symbol being read, with the amount read so far, joins the dictionary. *)
Definition flush (d : list (string * nat)) (cur : option (string * option nat))
  : list (string * nat) :=
  match cur with
  | None => d
  | Some (el, n) => add_amount el (default 1 n) d
  end.

Fixpoint scan (s : string) (d : list (string * nat)) (cur : option (string * option nat))
  : option (list (string * nat)) :=
  match s with
  | EmptyString => Some (flush d cur)
  | String c s' =>
      if is_upper c then scan s' (flush d cur) (Some (String c "", None))
      else if is_lower c then
        match cur with
        | Some (el, None) => scan s' d (Some (el +:+ String c "", None))
        | _ => None
        end
      else
        match Ascii.is_nat c, cur with
        | Some k, Some (el, n) => scan s' d (Some (el, Some (10 * default 0 n + k)))
        | _, _ => None
        end
  end.

(** Elements of amount zero are left out, and every symbol is checked. *)
Definition parse_formula (s : string) : option (list (string * nat)) :=
  d ← scan s [] None;
  let d := filter (λ kv, kv.2 ≠ 0) d in
  if forallb is_symbol (d.*1) then Some d else None.

(** The amounts divided by their greatest common divisor, the elements in
    alphabetical order. *)
Definition formula_of (d : list (string * nat)) : string :=
  let g := foldr Nat.gcd 0 (d.*2) in
  foldr (λ kv acc, kv.1 +:+ (if (kv.2 / g =? 1)%nat then "" else pretty (kv.2 / g)) +:+ acc) ""
        (merge_sort (λ a b, String.le a.1 b.1) d).

Lemma parse_formula_symbols s d :
  parse_formula s = Some d → Forall (λ y, is_symbol y = true) (d.*1).
Proof.
  unfold parse_formula. destruct (scan s [] None) as [d0|]; simpl; [|discriminate].
  destruct (forallb is_symbol _) eqn:E; [|discriminate].
  intros [= <-]. apply Forall_forall. intros y Hy.
  rewrite forallb_forall in E. apply E. by apply list_elem_of_In.
Qed.

#[export] Instance pymatgen : Pymatgen := {|
  comp_obj := list (string * nat);
  Composition_str := parse_formula;
  reduced_formula := formula_of;
  symbols := λ d, d.*1;
  symbols_wf := parse_formula_symbols
|}.

(** Decimal text: an optional minus sign, digits, an optional fraction. *)
Fixpoint digits_from (s : string) (acc : N) : option N :=
  match s with
  | EmptyString => Some acc
  | String c s' => k ← Ascii.is_nat c; digits_from s' (10 * acc + N.of_nat k)%N
  end.

Definition digits (s : string) : option N :=
  if String.eqb s "" then None else digits_from s 0%N.

Definition decimal (s : string) : option spec_float :=
  let '(neg, body) := match s with
                      | String "-"%char r => (true, r)
                      | _ => (false, s)
                      end in
  x ← match PyStr.split "."%char body with
      | [i] => m ← digits i; Some (Float64.of_int (Z.of_N m))
      | [i; f] =>
          m ← digits (i +:+ f);
          Some (SFdiv 53 1024 (Float64.of_int (Z.of_N m))
                              (Float64.of_int (10 ^ Z.of_nat (String.length f))))
      | _ => None
      end;
  Some (if neg then SFopp x else x).

(** The text of a float as numpy writes it in positional notation: the
    sign, the whole part, a point and the fraction, with the fewest
    significant digits (up to seventeen) that read back as the float, and
    every digit of the float when no such text reads back.  numpy writes
    an exponent for a float of sixteen digits or more before the point or
    of four zeros or more after it; this instance has no exponents. *)
Fixpoint strip_zeros (s : string) : string :=
  match s with
  | EmptyString => EmptyString
  | String c s' =>
      match strip_zeros s' with
      | EmptyString => if Ascii.eqb c "0" then EmptyString else String c EmptyString
      | t => String c t
      end
  end.

Definition fraction_digits (k : nat) (n : N) : string :=
  match pretty (10 ^ N.of_nat k + n)%N with
  | String _ ds => match strip_zeros ds with EmptyString => "0" | t => t end
  | EmptyString => "0"
  end.

(** [n / 10^k] written out. *)
Definition positional (n : N) (k : nat) : string :=
  pretty (n / 10 ^ N.of_nat k)%N +:+ "." +:+ fraction_digits k (n mod 10 ^ N.of_nat k)%N.

(** [n / 10^k] rounded to [j] significant digits, to even on a tie. *)
Definition round_digits (j : nat) (n : N) (k : nat) : N * nat :=
  let len := String.length (pretty n) in
  if (len <=? j)%nat then (n, k)
  else
    let drop := (len - j)%nat in
    let q := (10 ^ N.of_nat drop)%N in
    let lo := (n / q)%N in
    let r := (n mod q)%N in
    let up := ((q <? 2 * r) || ((2 * r =? q) && N.odd lo))%N in
    let n' := if up then (lo + 1)%N else lo in
    if (drop <=? k)%nat then (n', (k - drop)%nat)
    else ((n' * 10 ^ N.of_nat (drop - k))%N, 0%nat).

Definition reads_back (x : spec_float) (t : string) : bool :=
  match decimal t with
  | Some y => SFeqb y x
  | None => false
  end.

Definition repr (x : spec_float) : string :=
  match x with
  | S754_nan => "nan"
  | S754_infinity s => if s then "-inf" else "inf"
  | S754_zero s => if s then "-0.0" else "0.0"
  | S754_finite s m e =>
      let sign := if s then "-" else "" in
      let '(n, k) := match e with
                     | Zneg p => ((Npos m * 5 ^ Npos p)%N, Pos.to_nat p)
                     | _ => ((Npos m * 2 ^ Z.to_N e)%N, 0%nat)
                     end in
      let text j := let '(n', k') := round_digits j n k in sign +:+ positional n' k' in
      match List.find (reads_back x) (text <$> seq 1 17) with
      | Some t => t
      | None => sign +:+ positional n k
      end
  end.

#[export] Instance pandas : Pandas := {| str_to_float := decimal; float_to_str := repr |}.

(** A line of the table with only the two columns that matter filled in. *)
Definition line (formula : string) (delta : string) : Line :=
  mkRow () formula (Number S754_nan) (Number S754_nan) (Number S754_nan)
        (Number S754_nan) (Text delta) (Number S754_nan).

(** A small table: the three rows of the scenario of the specification, two
    rows of one compound, a row out of range, a row out of range whose
    formula does not parse, and a row whose enthalpy is not a number. *)
Definition table : list Line :=
  [ line "NaCl" "-1.0"; line "Na2O" "-2.0"; line "KCl" "-0.5";
    line "Fe2O3" "-3.0"; line "Fe4O6" "-3.5"; line "H2" "7.5";
    line "?" "-25"; line "TiO2" "n/a" ].

(** The reference table after the load. *)
Definition cleaned : list Entry := default [] (load_oqmd table).

(** The three rows of the first scenario of the specification. *)
Definition scenario : list Line :=
  [ line "NaCl" "-1.0"; line "Na2O" "-2.0"; line "KCl" "-0.5" ].

Definition scenario_cleaned : list Entry := default [] (load_oqmd scenario).

(** Two compounds of sodium and chlorine, written in two orders. *)
Definition two_orders : list Line :=
  [ line "NaCl" "-1.0"; line "Cl2Na" "-0.5" ].

Definition two_orders_cleaned : list Entry := default [] (load_oqmd two_orders).

(** A table with enough oxides of iron and sodium for test sets of five
    rows and more. *)
Definition oxides : list Line :=
  [ line "FeO" "-1.0"; line "Fe2O3" "-1.5"; line "Fe3O4" "-1.25";
    line "Na2O" "-2.0"; line "NaO2" "-0.5"; line "FeNaO2" "-2.5";
    line "NaFeO3" "-0.75"; line "NaCl" "-1.0"; line "TiO2" "-3.0" ].

Definition oxides_cleaned : list Entry := default [] (load_oqmd oxides).



End Reference.


(** * Properties *)

(** ** Strings *)

Module PyStrFacts.
Import PyStr.

Lemma split_not_nil sep s : split sep s ≠ [].
Proof.
  destruct s as [|c s]; simpl; [done|].
  destruct (Ascii.eqb c sep); [done|]. by destruct (split sep s).
Qed.

Lemma split_free sep s : free_of sep s = true → split sep s = [s].
Proof.
  induction s as [|c s IH]; simpl; [done|].
  intros [Hc Hs]%andb_prop. apply negb_true_iff in Hc. rewrite Hc, (IH Hs). done.
Qed.

Lemma split_app_sep sep x rest :
  free_of sep x = true → split sep (x +:+ String sep rest) = x :: split sep rest.
Proof.
  induction x as [|c x IH]; simpl.
  - intros _. by rewrite Ascii.eqb_refl.
  - intros [Hc Hx]%andb_prop. apply negb_true_iff in Hc. rewrite Hc, (IH Hx). done.
Qed.

Lemma split_join sep xs :
  Forall (λ x, free_of sep x = true) xs → xs ≠ [] →
  split sep (join (String sep "") xs) = xs.
Proof.
  induction 1 as [|x xs Hx Hxs IH]; [done|]. intros _.
  destruct xs as [|y ys]; simpl.
  - by apply split_free.
  - change (split sep (x +:+ String sep (join (String sep "") (y :: ys))) = x :: y :: ys).
    rewrite split_app_sep by done. f_equal. by apply IH.
Qed.

Lemma join_cons_ne sep x xs : x ≠ "" → join sep (x :: xs) ≠ "".
Proof. destruct xs; simpl; [done|]. destruct x; [done|]. discriminate. Qed.

End PyStrFacts.

Lemma is_upper_not_hyphen c : is_upper c = true → Ascii.eqb c hyphen = false.
Proof.
  intros Hc. apply Ascii.eqb_neq. intros ->. vm_compute in Hc. discriminate.
Qed.

Lemma is_lower_not_hyphen c : is_lower c = true → Ascii.eqb c hyphen = false.
Proof.
  intros Hc. apply Ascii.eqb_neq. intros ->. vm_compute in Hc. discriminate.
Qed.

Lemma all_lower_free s : all_lower s = true → PyStr.free_of hyphen s = true.
Proof.
  induction s as [|c s IH]; simpl; [done|].
  intros [Hc Hs]%andb_prop. by rewrite (is_lower_not_hyphen c Hc), (IH Hs).
Qed.

Lemma is_symbol_free y : is_symbol y = true → PyStr.free_of hyphen y = true.
Proof.
  destruct y as [|c y]; simpl; [done|].
  intros [Hc Hy]%andb_prop. by rewrite (is_upper_not_hyphen c Hc), (all_lower_free y Hy).
Qed.

Lemma is_symbol_ne y : is_symbol y = true → y ≠ "".
Proof. by destruct y. Qed.

Lemma symbols_free ys :
  Forall (λ y, is_symbol y = true) ys → Forall (λ y, PyStr.free_of hyphen y = true) ys.
Proof. intros Hys. eapply Forall_impl; [done|]. apply is_symbol_free. Qed.

(** Splitting a label of symbols gives the symbols back. *)
Lemma split_label ys :
  Forall (λ y, is_symbol y = true) ys → ys ≠ [] →
  PyStr.split hyphen (PyStr.join "-" ys) = ys.
Proof. intros Hys Hne. apply (PyStrFacts.split_join hyphen); auto using symbols_free. Qed.

Lemma label_nil ys :
  Forall (λ y, is_symbol y = true) ys → PyStr.join "-" ys = "" → ys = [].
Proof.
  destruct 1 as [|y ys Hy _]; [done|]. intros E.
  by destruct (PyStrFacts.join_cons_ne "-" y ys (is_symbol_ne y Hy)).
Qed.

(** Two lists of symbols with the same label are the same list. *)
Lemma label_inj xs ys :
  Forall (λ y, is_symbol y = true) xs → Forall (λ y, is_symbol y = true) ys →
  PyStr.join "-" xs = PyStr.join "-" ys → xs = ys.
Proof.
  intros Hxs Hys E. destruct (decide (xs = [])) as [->|Hx].
  { symmetry. by apply label_nil. }
  destruct (decide (ys = [])) as [->|Hy].
  { by apply label_nil. }
  by rewrite <-(split_label xs), <-(split_label ys), E.
Qed.

(** ** The order of float64 values *)

Module Float64Facts.
Import Float64.

Lemma SFleb_rank x y :
  isna x = false → isna y = false → SFleb x y = true ↔ rank_le (rank x) (rank y).
Proof.
  unfold rank_le, SFleb.
  destruct x as [sx|sx| |sx mx ex], y as [sy|sy| |sy my ey]; try discriminate; intros _ _;
    repeat match goal with s : bool |- _ => destruct s end; simpl;
    try (split; [intros _; lia | done]);
    try (split; [discriminate | lia]).
  - change (Pos.compare_cont Eq mx my) with (mx ?= my)%positive.
    destruct (Z.compare_spec ex ey); [destruct (Pos.compare_spec mx my)|..]; simpl;
      (split; [try discriminate; intros _; lia | try done; lia]).
  - change (Pos.compare_cont Eq mx my) with (mx ?= my)%positive.
    destruct (Z.compare_spec ex ey); [destruct (Pos.compare_spec mx my)|..]; simpl;
      (split; [try discriminate; intros _; lia | try done; lia]).
Qed.

Lemma SFltb_rank x y :
  isna x = false → isna y = false → SFltb x y = true ↔ ¬ rank_le (rank y) (rank x).
Proof.
  unfold rank_le, SFltb.
  destruct x as [sx|sx| |sx mx ex], y as [sy|sy| |sy my ey]; try discriminate; intros _ _;
    repeat match goal with s : bool |- _ => destruct s end; simpl;
    try (split; [intros _; lia | done]);
    try (split; [discriminate | lia]).
  - change (Pos.compare_cont Eq mx my) with (mx ?= my)%positive.
    destruct (Z.compare_spec ex ey); [destruct (Pos.compare_spec mx my)|..]; simpl;
      (split; [try discriminate; intros _; lia | try done; lia]).
  - change (Pos.compare_cont Eq mx my) with (mx ?= my)%positive.
    destruct (Z.compare_spec ex ey); [destruct (Pos.compare_spec mx my)|..]; simpl;
      (split; [try discriminate; intros _; lia | try done; lia]).
Qed.

(** On numbers [x <= y] holds exactly when [y < x] does not. *)
Lemma SFleb_not_SFltb x y :
  isna x = false → isna y = false → SFleb x y = negb (SFltb y x).
Proof.
  intros Hx Hy. pose proof (SFleb_rank x y Hx Hy) as Hle.
  pose proof (SFltb_rank y x Hy Hx) as Hlt.
  destruct (SFleb x y), (SFltb y x); simpl; try done.
  - destruct (proj1 Hlt eq_refl). by apply Hle.
  - assert (¬ rank_le (rank x) (rank y)) as Hn by (intros H; by apply Hle in H).
    by apply Hlt in Hn.
Qed.

Lemma SFltb_not_nan_l x y : SFltb x y = true → isna x = false.
Proof. by destruct x. Qed.

Lemma SFltb_not_nan_r x y : SFltb x y = true → isna y = false.
Proof. by destruct x, y. Qed.

Lemma le_na_last_trans x y z :
  le_na_last x y = true → le_na_last y z = true → le_na_last x z = true.
Proof.
  unfold le_na_last. destruct (isna z) eqn:Hz; [done|]. simpl.
  destruct (isna y) eqn:Hy; simpl; [discriminate|].
  destruct (isna x) eqn:Hx; simpl; [discriminate|].
  rewrite !SFleb_rank by done. unfold rank_le. lia.
Qed.

Lemma le_na_last_total x y : le_na_last x y = true ∨ le_na_last y x = true.
Proof.
  unfold le_na_last. destruct (isna y) eqn:Hy; [by left|].
  destruct (isna x) eqn:Hx; [by right|]. simpl.
  rewrite !SFleb_rank by done. unfold rank_le. lia.
Qed.

(** On numbers the order of the sort is IEEE [<=]. *)
Lemma le_na_last_SFleb x y :
  isna x = false → isna y = false → le_na_last x y = SFleb x y.
Proof. unfold le_na_last. by intros -> ->. Qed.

(** *** The values of float64 numbers *)

Lemma digits2_pos_bounds m :
  (2 ^ (Z.pos (digits2_pos m) - 1) ≤ Z.pos m < 2 ^ Z.pos (digits2_pos m))%Z.
Proof.
  induction m as [p IH|p IH|]; simpl digits2_pos; [| |done].
  - rewrite Pos2Z.inj_succ.
    replace (Z.succ (Z.pos (digits2_pos p)) - 1)%Z
      with (Z.succ (Z.pos (digits2_pos p) - 1))%Z by lia.
    rewrite !Z.pow_succ_r by lia. lia.
  - rewrite Pos2Z.inj_succ.
    replace (Z.succ (Z.pos (digits2_pos p)) - 1)%Z
      with (Z.succ (Z.pos (digits2_pos p) - 1))%Z by lia.
    rewrite !Z.pow_succ_r by lia. lia.
Qed.

(** A valid mantissa has at most 53 bits, and exactly 53 above the least
    exponent. *)
Lemma valid_finite s m e :
  valid (S754_finite s m e) = true →
  (Z.pos m < 2 ^ 53 ∧ -1074 ≤ e ∧ (-1074 < e → 2 ^ 52 ≤ Z.pos m))%Z.
Proof.
  unfold valid, valid_binary, bounded, canonical_mantissa, fexp, emin.
  intros [Hc _]%andb_prop. apply Z.eqb_eq in Hc.
  pose proof (digits2_pos_bounds m) as [Hlo Hhi].
  set (d := Z.pos (digits2_pos m)) in *.
  assert (d ≤ 53)%Z as Hd by lia.
  split; [|split; [lia|]].
  - eapply Z.lt_le_trans; [exact Hhi|]. apply Z.pow_le_mono_r; lia.
  - intros He. assert (d = 53)%Z as Hd' by lia. rewrite Hd' in Hlo. exact Hlo.
Qed.

Lemma two_pow_pos e : (0 < 2 ^ e)%Q.
Proof. by apply Qpower_0_lt. Qed.

(** Of two valid positive numbers the one with the smaller exponent is
    smaller. *)
Lemma smaller_exponent m1 e1 m2 e2 :
  (Z.pos m1 < 2 ^ 53)%Z → (-1074 ≤ e1)%Z → (-1074 < e2 → 2 ^ 52 ≤ Z.pos m2)%Z →
  (e1 < e2)%Z →
  (inject_Z (Z.pos m1) * 2 ^ e1 < inject_Z (Z.pos m2) * 2 ^ e2)%Q.
Proof.
  intros H1 He1 H2 He.
  replace e2 with (e1 + (e2 - e1))%Z by lia.
  rewrite Qpower_plus by done.
  rewrite <-(Zpower_Qpower 2 (e2 - e1)) by lia.
  rewrite Qmult_assoc, (Qmult_comm (inject_Z (Z.pos m2))), <-Qmult_assoc, <-inject_Z_mult.
  rewrite (Qmult_comm (2 ^ e1)). apply Qmult_lt_compat_r; [apply two_pow_pos|].
  rewrite <-Zlt_Qlt.
  assert (2 ^ 1 ≤ 2 ^ (e2 - e1))%Z by (apply Z.pow_le_mono_r; lia).
  specialize (H2 ltac:(lia)). change (2 ^ 1)%Z with 2%Z in *.
  change (2 ^ 53)%Z with (2 * 2 ^ 52)%Z in H1. nia.
Qed.

Lemma pos_value_lt m1 e1 m2 e2 :
  valid (S754_finite false m1 e1) = true → valid (S754_finite false m2 e2) = true →
  (inject_Z (Z.pos m1) * 2 ^ e1 < inject_Z (Z.pos m2) * 2 ^ e2)%Q ↔
  (e1 < e2 ∨ (e1 = e2 ∧ Z.pos m1 < Z.pos m2))%Z.
Proof.
  intros (Hm1 & He1 & Hn1)%valid_finite (Hm2 & He2 & Hn2)%valid_finite.
  destruct (Z.lt_trichotomy e1 e2) as [H|[->|H]].
  - split; [by left|]. intros _. by apply smaller_exponent.
  - rewrite Qmult_lt_r by apply two_pow_pos. rewrite <-Zlt_Qlt. lia.
  - split; [|lia]. intros Hlt. exfalso.
    apply (Qlt_irrefl (inject_Z (Z.pos m1) * 2 ^ e1)).
    eapply Qlt_trans; [exact Hlt|]. by apply smaller_exponent.
Qed.

Lemma pos_value_pos m e : (0 < inject_Z (Z.pos m) * 2 ^ e)%Q.
Proof. apply Qmult_lt_0_compat; [done|apply two_pow_pos]. Qed.

Lemma neg_value m e :
  (inject_Z (Z.neg m) * 2 ^ e == - (inject_Z (Z.pos m) * 2 ^ e))%Q.
Proof. change (Z.neg m) with (- Z.pos m)%Z. rewrite inject_Z_opp. ring. Qed.

Lemma valid_sign s m e : valid (S754_finite s m e) = valid (S754_finite false m e).
Proof. done. Qed.

(** On valid numbers IEEE [<] is [<] on the values. *)
Lemma SFltb_value x y qx qy :
  valid x = true → valid y = true → value x = Some qx → value y = Some qy →
  SFltb x y = true ↔ (qx < qy)%Q.
Proof.
  intros Hx Hy Hqx Hqy.
  destruct x as [sx|sx| |sx mx ex]; try discriminate;
    destruct y as [sy|sy| |sy my ey]; try discriminate;
    simpl in Hqx, Hqy; injection Hqx as <-; injection Hqy as <-.
  - split; [discriminate|]. by intros ?%Qlt_irrefl.
  - destruct sy; unfold SFltb; simpl.
    + split; [discriminate|]. rewrite neg_value. intros Hlt. exfalso.
      pose proof (pos_value_pos my ey) as Hpos.
      apply (Qlt_irrefl 0), (Qlt_trans _ _ _ Hpos).
      apply Qopp_lt_compat in Hlt. by rewrite Qopp_involutive in Hlt.
    + split; [intros _; apply pos_value_pos|done].
  - destruct sx; unfold SFltb; simpl.
    + split; [|done]. intros _. rewrite neg_value.
      pose proof (pos_value_pos mx ex) as Hpos. by apply Qopp_lt_compat in Hpos.
    + split; [discriminate|]. intros Hlt. exfalso.
      apply (Qlt_irrefl 0), (Qlt_trans _ _ _ (pos_value_pos mx ex) Hlt).
  - rewrite (valid_sign sx) in Hx. rewrite (valid_sign sy) in Hy.
    pose proof (pos_value_lt mx ex my ey Hx Hy) as Hxy.
    pose proof (pos_value_lt my ey mx ex Hy Hx) as Hyx.
    pose proof (pos_value_pos mx ex) as Hpx. pose proof (pos_value_pos my ey) as Hpy.
    unfold SFltb. simpl.
    change (Pos.compare_cont Eq mx my) with (mx ?= my)%positive.
    destruct sx, sy.
    + rewrite !neg_value. 
      assert ((- (inject_Z (Z.pos mx) * 2 ^ ex) < - (inject_Z (Z.pos my) * 2 ^ ey))%Q ↔
              (inject_Z (Z.pos my) * 2 ^ ey < inject_Z (Z.pos mx) * 2 ^ ex)%Q) as ->.
      { split; [|apply Qopp_lt_compat]. intros H%Qopp_lt_compat.
        by rewrite !Qopp_involutive in H. }
      rewrite Hyx.
      destruct (Z.compare_spec ex ey); [destruct (Pos.compare_spec mx my)|..]; simpl;
        (split; [try discriminate; intros _; lia | try done; lia]).
    + rewrite neg_value. split; [intros _|done].
      apply (Qlt_trans _ 0); [|done]. by apply Qopp_lt_compat in Hpx.
    + rewrite neg_value. split; [discriminate|]. intros Hlt. exfalso.
      apply (Qlt_irrefl 0), (Qlt_trans _ _ _ Hpx), (Qlt_trans _ _ _ Hlt).
      by apply Qopp_lt_compat in Hpy.
    + rewrite Hxy.
      destruct (Z.compare_spec ex ey); [destruct (Pos.compare_spec mx my)|..]; simpl;
        (split; [try discriminate; intros _; lia | try done; lia]).
Qed.

Lemma value_not_nan x q : value x = Some q → isna x = false.
Proof. by destruct x. Qed.

(** On valid numbers IEEE [<=] is [<=] on the values. *)
Lemma SFleb_value x y qx qy :
  valid x = true → valid y = true → value x = Some qx → value y = Some qy →
  SFleb x y = true ↔ (qx <= qy)%Q.
Proof.
  intros Hx Hy Hqx Hqy.
  rewrite (SFleb_not_SFltb x y) by eauto using value_not_nan.
  pose proof (SFltb_value y x qy qx Hy Hx Hqy Hqx) as Hlt.
  destruct (SFltb y x); simpl.
  - split; [done|]. intros Hle. apply Qle_not_lt in Hle. destruct Hle. by apply Hlt.
  - split; [|done]. intros _. apply Qnot_lt_le. intros H. by apply Hlt in H.
Qed.

Lemma of_int_5 : valid (of_int 5) = true ∧ ∃ q, value (of_int 5) = Some q ∧ (q == 5)%Q.
Proof. split; [done|]. eexists. split; [reflexivity|]. vm_compute. reflexivity. Qed.

Lemma of_int_m20 :
  valid (of_int (-20)) = true ∧ ∃ q, value (of_int (-20)) = Some q ∧ (q == -20)%Q.
Proof. split; [done|]. eexists. split; [reflexivity|]. vm_compute. reflexivity. Qed.

(** The two comparisons of the range query, read on the value. *)
Lemma in_range_value x :
  valid x = true →
  (gt x (of_int (-20)) = true ∧ lt x (of_int 5) = true) ↔
  ∃ q, value x = Some q ∧ (-20 < q)%Q ∧ (q < 5)%Q.
Proof.
  intros Hx.
  destruct of_int_5 as (H5 & q5 & Hq5 & E5), of_int_m20 as (H20 & q20 & Hq20 & E20).
  split.
  - intros [Hgt Hlt].
    assert (∃ q, value x = Some q) as [q Hq].
    { destruct x as [sx|sx| |sx mx ex]; simpl; eauto; [|done].
      destruct sx; [discriminate Hgt|discriminate Hlt]. }
    exists q. split; [done|].
    rewrite <-E5, <-E20.
    split; [by apply (SFltb_value (of_int (-20)) x)|by apply (SFltb_value x (of_int 5))].
  - intros (q & Hq & Hgt & Hlt). rewrite <-E20 in Hgt. rewrite <-E5 in Hlt.
    split; [by apply (SFltb_value (of_int (-20)) x q20 q)|by apply (SFltb_value x (of_int 5) q q5)].
Qed.

End Float64Facts.

(** ** The loader *)

Section LoaderFacts.
Context `{Pandas} `{Pymatgen}.

Lemma read_csv_index table :
  (λ r : Row nat cell, index r) <$> read_csv table = seq 0 (length table).
Proof.
  unfold read_csv. rewrite fmap_imap.
  rewrite <-(list_fmap_id (seq 0 (length table))).
  by rewrite <-(imap_seq_0 table id).
Qed.

Lemma elem_of_in_range_rows table r :
  r ∈ in_range_rows table ↔
  delta_e_in_range r = true ∧
  ∃ i l, table !! i = Some l ∧ r = to_numeric_columns (labelled i l).
Proof.
  unfold in_range_rows, query_delta_e, read_csv.
  rewrite list_elem_of_filter, list_elem_of_fmap.
  setoid_rewrite elem_of_lookup_imap. split.
  - intros (Hr & r0 & -> & i & l & -> & Hl). eauto 6.
  - intros (Hr & i & l & Hl & ->). eauto 8.
Qed.

Lemma in_range_rows_index table :
  NoDup ((λ r : Row nat spec_float, index r) <$> in_range_rows table).
Proof.
  unfold in_range_rows, query_delta_e.
  eapply sublist_NoDup; [|apply fmap_sublist, sublist_filter].
  rewrite <-list_fmap_compose.
  change ((λ r : Row nat spec_float, index r) ∘ to_numeric_columns)
    with (λ r : Row nat cell, index r).
  rewrite read_csv_index. apply NoDup_seq.
Qed.

(** What a parsed cell is: a text that is not read as missing, parsed by
    pymatgen. *)
Lemma Composition_Some text c :
  Composition text = Some c ↔ (text ∉ na_values) ∧ Composition_str text = Some c.
Proof.
  unfold Composition, isna_text. case_bool_decide; [|tauto].
  split; [done|]. by intros [? _].
Qed.


Lemma Composition_symbols text c :
  Composition text = Some c → Forall (λ y, is_symbol y = true) (symbols c).
Proof. intros [_ Hc]%Composition_Some. by eapply symbols_wf. Qed.

Lemma add_comp_obj_Some r p :
  add_comp_obj r = Some p ↔
  row p = r ∧ Composition (comp r) = Some (comp_obj_of p) ∧
  pretty_comp p = reduced_formula (comp_obj_of p).
Proof.
  unfold add_comp_obj. destruct (Composition (comp r)) as [c|]; simpl.
  - split; [by intros [= <-]|]. destruct p as [r' c' f']; simpl.
    by intros (-> & [= ->] & ->).
  - split; [done|]. by intros (_ & ? & _).
Qed.

Lemma mapM_add_comp_obj rows df :
  mapM add_comp_obj rows = Some df → row <$> df = rows.
Proof.
  intros Hdf. apply (mapM_fmap_Some_inv _ _ _ _ Hdf).
  intros r p Hp. by apply add_comp_obj_Some in Hp as [-> _].
Qed.

Lemma elem_of_mapM_add_comp_obj rows df p :
  mapM add_comp_obj rows = Some df → p ∈ df →
  row p ∈ rows ∧ add_comp_obj (row p) = Some p.
Proof.
  intros Hdf Hp. apply mapM_Some_1 in Hdf.
  apply list_elem_of_lookup in Hp as [i Hi].
  destruct (Forall2_lookup_r _ _ _ _ _ Hdf Hi) as (r & Hr & Hrp).
  assert (row p = r) as <- by by apply add_comp_obj_Some in Hrp as [-> _].
  split; [|done]. apply list_elem_of_lookup. eauto.
Qed.

Lemma mapM_add_comp_obj_elem rows df r :
  mapM add_comp_obj rows = Some df → r ∈ rows →
  ∃ p, p ∈ df ∧ add_comp_obj r = Some p.
Proof.
  intros Hdf Hr. apply mapM_Some_1 in Hdf.
  apply list_elem_of_lookup in Hr as [i Hi].
  destruct (Forall2_lookup_l _ _ _ _ _ Hdf Hi) as (p & Hp & Hrp).
  exists p. split; [|done]. apply list_elem_of_lookup. eauto.
Qed.

End LoaderFacts.

(** ** Sorting and deduplication *)

Section DedupFacts.
Context `{Pymatgen}.

#[local] Instance delta_e_le_trans : Transitive delta_e_le.
Proof. intros x y z. apply Float64Facts.le_na_last_trans. Qed.

#[local] Instance delta_e_le_total : Total delta_e_le.
Proof. intros x y. apply Float64Facts.le_na_last_total. Qed.

Lemma delta_e_le_refl r : delta_e_le r r.
Proof. by destruct (delta_e_le_total r r). Qed.

Lemma sort_values_Permutation df : sort_values df ≡ₚ df.
Proof. apply merge_sort_Permutation. Qed.

Lemma sort_values_sorted df : StronglySorted delta_e_le (sort_values df).
Proof. apply StronglySorted_merge_sort; apply _. Qed.

Lemma drop_duplicates_from_sublist seen df :
  drop_duplicates_from seen df `sublist_of` df.
Proof.
  revert seen. induction df as [|r df IH]; intros seen; simpl; [done|].
  case_decide; [apply sublist_cons|apply sublist_skip]; apply IH.
Qed.

(** A row that is kept is the first of the frame with its formula, and its
    formula had not been seen before. *)
Lemma drop_duplicates_from_first seen df r :
  r ∈ drop_duplicates_from seen df →
  (pretty_comp r ∉ seen) ∧
  (∃ before after, df = before ++ r :: after ∧ pretty_comp r ∉ pretty_comp <$> before).
Proof.
  revert seen. induction df as [|h df IH]; intros seen; simpl; [by intros ?%elem_of_nil|].
  case_decide as Hh.
  - intros (Hseen & before & after & -> & Hb)%IH. split; [done|].
    exists (h :: before), after. split; [done|].
    rewrite fmap_cons, not_elem_of_cons. split; [|done]. congruence.
  - intros [->|Hr]%elem_of_cons.
    + split; [done|]. exists [], df. split; [done|]. apply not_elem_of_nil.
    + apply IH in Hr as (Hseen & before & after & -> & Hb).
      apply not_elem_of_union in Hseen as [Hne%not_elem_of_singleton Hseen].
      split; [done|]. exists (h :: before), after. split; [done|].
      rewrite fmap_cons, not_elem_of_cons. done.
Qed.

(** Every formula that had not been seen keeps one row. *)
Lemma drop_duplicates_from_covers seen df p :
  p ∈ df → pretty_comp p ∉ seen →
  ∃ r, r ∈ drop_duplicates_from seen df ∧ pretty_comp r = pretty_comp p.
Proof.
  revert seen. induction df as [|h df IH]; intros seen; simpl; [by intros ?%elem_of_nil|].
  intros [->|Hp]%elem_of_cons Hseen.
  - rewrite decide_False by done. exists h. split; [left|done].
  - case_decide as Hh; [by apply IH|].
    destruct (decide (pretty_comp h = pretty_comp p)) as [E|E].
    + exists h. split; [left|done].
    + destruct (IH ({[pretty_comp h]} ∪ seen) Hp) as (r & Hr & Hrp).
      { apply not_elem_of_union. split; [|done]. apply not_elem_of_singleton. done. }
      exists r. split; [by right|done].
Qed.

Lemma drop_duplicates_from_NoDup seen df :
  NoDup (pretty_comp <$> drop_duplicates_from seen df).
Proof.
  revert seen. induction df as [|h df IH]; intros seen; simpl; [constructor|].
  case_decide as Hh; [apply IH|].
  rewrite fmap_cons. constructor; [|apply IH].
  intros (r & E & Hr)%list_elem_of_fmap.
  apply drop_duplicates_from_first in Hr as [Hseen _].
  apply Hseen, elem_of_union. left. by apply elem_of_singleton.
Qed.

(** In a sorted frame the row that is kept comes before every row with the
    same formula. *)
Lemma drop_duplicates_sorted_min df r p :
  StronglySorted delta_e_le df →
  r ∈ drop_duplicates df → p ∈ df → pretty_comp p = pretty_comp r →
  delta_e_le r p.
Proof.
  intros Hsorted Hr Hp E.
  apply drop_duplicates_from_first in Hr as (_ & before & after & -> & Hb).
  apply elem_of_app in Hp as [Hp|Hp].
  { destruct Hb. rewrite <-E. by apply list_elem_of_fmap_2. }
  apply elem_of_cons in Hp as [->|Hp]; [apply delta_e_le_refl|].
  apply StronglySorted_app_1_r, StronglySorted_cons in Hsorted as [Hall _].
  by apply (proj1 (Forall_forall _ _) Hall).
Qed.

End DedupFacts.

(** ** The cleaned frame *)

Section CleanedFacts.
Context `{!Pandas, !Pymatgen}.

Lemma load_oqmd_Some table cleaned :
  load_oqmd table = Some cleaned ↔
  ∃ df, mapM add_comp_obj (in_range_rows table) = Some df ∧
        cleaned = add_system <$> drop_duplicates (sort_values df).
Proof.
  unfold load_oqmd. destruct (mapM add_comp_obj (in_range_rows table)) as [df|]; simpl.
  - split; [intros [= <-]; eauto|]. by intros (? & [= <-] & ->).
  - split; [done|]. by intros (? & ? & _).
Qed.

(** The load fails only on a composition of a row in range that does not
    parse. *)
Lemma load_oqmd_is_Some table :
  is_Some (load_oqmd table) ↔
  ∀ r, r ∈ in_range_rows table → is_Some (Composition (comp r)).
Proof.
  unfold load_oqmd. rewrite <-Forall_forall.
  transitivity (is_Some (mapM add_comp_obj (in_range_rows table))).
  { destruct (mapM add_comp_obj (in_range_rows table)); simpl; [|by rewrite <-!not_eq_None_Some].
    split; eauto. }
  rewrite mapM_is_Some. apply Forall_iff. intros r. unfold add_comp_obj, compose.
  destruct (Composition (comp r)); simpl; [split; eauto|].
  by rewrite <-!not_eq_None_Some.
Qed.

(** When the load succeeds its result is what [default] extracts; this
    lets a concrete table be run by computing a single boolean. *)
Lemma load_oqmd_default table :
  bool_decide (is_Some (load_oqmd table)) = true →
  load_oqmd table = Some (default [] (load_oqmd table)).
Proof. intros [cleaned ->]%bool_decide_eq_true. done. Qed.

Lemma elem_of_kept df p :
  p ∈ drop_duplicates (sort_values df) → p ∈ df.
Proof.
  intros Hp. rewrite <-(sort_values_Permutation df).
  eapply elem_of_sublist; [exact Hp|apply drop_duplicates_from_sublist].
Qed.

(** Where an entry of the cleaned frame comes from. *)
Lemma cleaned_entry table cleaned (e : Entry) :
  load_oqmd table = Some cleaned → e ∈ cleaned →
  row e ∈ in_range_rows table ∧
  Composition (comp e) = Some (comp_obj_of e) ∧
  pretty_comp e = reduced_formula (comp_obj_of e) ∧
  nelems e = length (symbols (comp_obj_of e)) ∧
  system e = PyStr.join "-" (symbols (comp_obj_of e)).
Proof.
  intros (df & Hdf & ->)%load_oqmd_Some (p & -> & Hp)%list_elem_of_fmap.
  apply elem_of_kept in Hp.
  destruct (elem_of_mapM_add_comp_obj _ _ _ Hdf Hp) as [Hrow Hadd].
  apply add_comp_obj_Some in Hadd as (_ & Hc & Hf). simpl. done.
Qed.

Lemma cleaned_symbols table cleaned (e : Entry) :
  load_oqmd table = Some cleaned → e ∈ cleaned →
  Forall (λ y, is_symbol y = true) (symbols (comp_obj_of e)).
Proof.
  intros Hload He. destruct (cleaned_entry _ _ _ Hload He) as (_ & Hc & _).
  by eapply Composition_symbols.
Qed.

(** The index labels of the cleaned frame are pairwise distinct. *)
Lemma cleaned_index_NoDup table cleaned :
  load_oqmd table = Some cleaned → NoDup (index_of cleaned).
Proof.
  intros (df & Hdf & ->)%load_oqmd_Some. unfold index_of.
  rewrite <-list_fmap_compose.
  change ((λ r : Entry, index r) ∘ add_system) with (λ p : Parsed, index p).
  eapply sublist_NoDup; [|apply fmap_sublist, drop_duplicates_from_sublist].
  rewrite sort_values_Permutation.
  change (λ p : Parsed, index p) with ((λ r : Row nat spec_float, index r) ∘ row).
  rewrite list_fmap_compose, (mapM_add_comp_obj _ _ Hdf).
  apply in_range_rows_index.
Qed.

Lemma index_of_NoDup (df : list Entry) : NoDup (index_of df) → NoDup df.
Proof. apply NoDup_fmap_1. Qed.

Lemma index_of_inj (df : list Entry) (e1 e2 : Entry) :
  NoDup (index_of df) → e1 ∈ df → e2 ∈ df → index e1 = index e2 → e1 = e2.
Proof.
  intros Hnd [i1 H1]%list_elem_of_lookup [i2 H2]%list_elem_of_lookup E.
  assert (i1 = i2) as ->; [|congruence].
  apply (NoDup_lookup _ _ _ (index e1) Hnd); unfold index_of; rewrite list_lookup_fmap.
  - by rewrite H1.
  - by rewrite H2, E.
Qed.

End CleanedFacts.

(** Runs the load of a concrete table whose result is named by [default]. *)
Ltac run_load := apply load_oqmd_default; vm_compute; reflexivity.

(** ** The training set *)

Lemma elem_of_unique labels i : i ∈ unique labels ↔ i ∈ labels.
Proof.
  induction labels as [|l labels IH]; simpl; [done|].
  rewrite !elem_of_cons, list_elem_of_filter, IH.
  destruct (decide (i = l)); naive_solver.
Qed.

Lemma unique_NoDup labels : NoDup (unique labels).
Proof.
  induction labels as [|l labels IH]; simpl; [constructor|].
  apply NoDup_cons. split; [|by apply NoDup_filter].
  by intros [? _]%list_elem_of_filter.
Qed.



Lemma elem_of_index_difference this other i :
  i ∈ index_difference this other ↔ i ∈ this ∧ i ∉ other.
Proof.
  unfold index_difference. destruct other as [|o other].
  - rewrite elem_of_unique, elem_of_nil. tauto.
  - rewrite merge_sort_Permutation, list_elem_of_filter, elem_of_unique. tauto.
Qed.

Lemma index_difference_NoDup this other : NoDup (index_difference this other).
Proof.
  unfold index_difference. destruct other as [|o other]; [apply unique_NoDup|].
  rewrite merge_sort_Permutation. apply NoDup_filter, unique_NoDup.
Qed.



Section TrainFacts.
Context `{!Pymatgen}.

Lemma elem_of_index_of (df : list Entry) i :
  i ∈ index_of df ↔ ∃ e : Entry, e ∈ df ∧ index e = i.
Proof.
  unfold index_of. rewrite list_elem_of_fmap. split.
  - intros (e & -> & He). eauto.
  - intros (e & He & <-). eauto.
Qed.

Lemma loc_nil df : loc df [] = Some [].
Proof. done. Qed.

Lemma loc_cons df l labels :
  loc df (l :: labels) =
  match filter (λ r : Entry, index r = l) df with
  | [] => None
  | r :: rs => (λ rest, (r :: rs) ++ rest) <$> loc df labels
  end.
Proof.
  unfold loc. simpl.
  destruct (filter (λ r : Entry, index r = l) df) as [|r rs]; simpl; [done|].
  by destruct (mapM _ labels).
Qed.

(** [loc] succeeds on labels of the frame and returns the rows that carry
    them. *)
Lemma loc_Some df labels :
  (∀ l, l ∈ labels → l ∈ index_of df) →
  ∃ out, loc df labels = Some out ∧
         (∀ e : Entry, e ∈ out ↔ e ∈ df ∧ index e ∈ labels) ∧
         (NoDup df → NoDup labels → NoDup out).
Proof.
  induction labels as [|l labels IH]; intros Hin.
  { exists []. split; [done|]. split; [|constructor].
    intros e. rewrite !elem_of_nil. tauto. }
  destruct IH as (out & Hout & Hmem & Hnd).
  { intros l' Hl'. apply Hin. by right. }
  rewrite loc_cons, Hout.
  destruct (filter (λ r : Entry, index r = l) df) as [|r rs] eqn:Hf.
  { destruct (proj1 (elem_of_index_of df l)) as (e & He & Hl); [apply Hin; left|].
    by destruct (filter_nil_not_elem_of _ _ e Hf Hl). }
  exists ((r :: rs) ++ out). split; [done|]. rewrite <-Hf. split.
  - intros e. rewrite elem_of_app, list_elem_of_filter, Hmem, elem_of_cons. naive_solver.
  - intros Hdf [Hl Hlabels]%NoDup_cons. apply NoDup_app. split; [by apply NoDup_filter|].
    split; [|by apply Hnd].
    intros e [He _]%list_elem_of_filter [_ He']%Hmem. congruence.
Qed.

(** The training set exists, and holds the rows of the frame whose label is
    not a label of the test set. *)
Lemma train_set_of_Some df test :
  ∃ train, train_set_of df test = Some train ∧
           (∀ e : Entry, e ∈ train ↔ e ∈ df ∧ index e ∉ index_of test) ∧
           (NoDup df → NoDup train).
Proof.
  unfold train_set_of.
  destruct (loc_Some df (index_difference (index_of df) (index_of test)))
    as (train & Htrain & Hmem & Hnd).
  { by intros l [? _]%elem_of_index_difference. }
  exists train. split; [done|]. split.
  - intros e. rewrite Hmem, elem_of_index_difference, elem_of_index_of. naive_solver.
  - intros Hdf. apply Hnd; [done|apply index_difference_NoDup].
Qed.

(** A test set cut out of a frame with distinct labels, and the training
    set derived from it, split the frame in two. *)
Lemma train_test_partition df (P : Entry → Prop) `{!∀ e, Decision (P e)} :
  NoDup (index_of df) →
  ∃ train, train_set_of df (filter P df) = Some train ∧
    (∀ e : Entry, e ∈ train ↔ e ∈ df ∧ index e ∉ index_of (filter P df)) ∧
    (∀ e : Entry, e ∈ train ↔ e ∈ df ∧ ¬ P e) ∧
    (∀ e : Entry, e ∈ train → e ∉ filter P df) ∧
    (∀ i, i ∈ index_of train → i ∉ index_of (filter P df)) ∧
    train ++ filter P df ≡ₚ df.
Proof.
  intros Hidx. pose proof (index_of_NoDup df Hidx) as Hdf.
  destruct (train_set_of_Some df (filter P df)) as (train & Htrain & Hmem & Hnd).
  exists train. split; [done|]. split; [done|].
  assert (∀ e : Entry, e ∈ train ↔ e ∈ df ∧ ¬ P e) as Hmem'.
  { intros e. rewrite Hmem, elem_of_index_of. split.
    - intros [He Hi]. split; [done|]. intros HP. apply Hi. exists e.
      by rewrite list_elem_of_filter.
    - intros [He HP]. split; [done|]. intros (e' & [HP' He']%list_elem_of_filter & E).
      by rewrite <-(index_of_inj df e' e Hidx He' He E) in HP. }
  split; [done|]. split; [|split].
  - intros e [_ HP]%Hmem' [HP' _]%list_elem_of_filter. done.
  - intros i (e & [_ He]%Hmem & <-)%elem_of_index_of. done.
  - apply NoDup_Permutation; [|done|].
    + apply NoDup_app. split; [by apply Hnd|]. split; [|by apply NoDup_filter].
      intros e [_ HP]%Hmem' [HP' _]%list_elem_of_filter. done.
    + intros e. rewrite elem_of_app, Hmem', list_elem_of_filter.
      destruct (decide (P e)); naive_solver.
Qed.

End TrainFacts.

(** ** The range of the formation enthalpy *)

Section RangeFacts.
Context `{!Pandas, !Pymatgen}.

Lemma delta_e_in_range_spec (r : Row nat spec_float) :
  delta_e_in_range r = true ↔
  Float64.gt (delta_e r) (Float64.of_int (-20)) = true ∧
  Float64.lt (delta_e r) (Float64.of_int 5) = true.
Proof. unfold delta_e_in_range. by rewrite andb_true_iff. Qed.

Lemma delta_e_in_range_not_nan (r : Row nat spec_float) :
  delta_e_in_range r = true → Float64.isna (delta_e r) = false.
Proof.
  intros [_ Hlt]%delta_e_in_range_spec.
  by apply Float64Facts.SFltb_not_nan_l in Hlt.
Qed.

Lemma cleaned_in_range table cleaned (e : Entry) :
  load_oqmd table = Some cleaned → e ∈ cleaned → delta_e_in_range e = true.
Proof.
  intros Hload He. destruct (cleaned_entry _ _ _ Hload He) as [Hrow _].
  by apply elem_of_in_range_rows in Hrow as [? _].
Qed.

(** A line that the range query rejects leaves no entry. *)
Lemma out_of_range_dropped table cleaned i l :
  load_oqmd table = Some cleaned → table !! i = Some l →
  delta_e_in_range (to_numeric_columns (labelled i l)) = false →
  i ∉ index_of cleaned.
Proof.
  intros Hload Hl Hout (e & He & Hi)%elem_of_index_of.
  destruct (cleaned_entry _ _ _ Hload He) as [Hrow _].
  apply elem_of_in_range_rows in Hrow as (Hin & j & l' & Hl' & Hrow).
  assert (j = i) as -> by by rewrite <-Hi, Hrow.
  assert (l' = l) as -> by congruence.
  rewrite Hrow in Hin. congruence.
Qed.

End RangeFacts.

(** C6. Every entry of the cleaned frame has a formation enthalpy strictly
    above -20 and strictly below 5, as float64 comparisons and, for a
    float64 in canonical form, as inequalities on the number it stands for.
    Rows outside the interval are dropped without an error: the load
    succeeds as soon as the compositions of the rows inside the interval
    parse, whatever the other rows hold, and a row outside the interval
    leaves no entry. *)
Theorem cleaned_delta_e_in_open_interval `{!Pandas, !Pymatgen} (table : list Line) :
  (∀ r, r ∈ in_range_rows table → is_Some (Composition (comp r))) →
  ∃ cleaned, load_oqmd table = Some cleaned ∧
    (∀ e : Entry, e ∈ cleaned →
       Float64.gt (delta_e e) (Float64.of_int (-20)) = true ∧
       Float64.lt (delta_e e) (Float64.of_int 5) = true) ∧
    (∀ e : Entry, e ∈ cleaned → Float64.valid (delta_e e) = true →
       ∃ q, Float64.value (delta_e e) = Some q ∧ (-20 < q)%Q ∧ (q < 5)%Q) ∧
    (∀ i l, table !! i = Some l →
       delta_e_in_range (to_numeric_columns (labelled i l)) = false →
       i ∉ index_of cleaned).
Proof.
  intros [cleaned Hload]%load_oqmd_is_Some. exists cleaned. split; [done|].
  assert (∀ e : Entry, e ∈ cleaned →
            Float64.gt (delta_e e) (Float64.of_int (-20)) = true ∧
            Float64.lt (delta_e e) (Float64.of_int 5) = true) as Hrange.
  { intros e He. apply delta_e_in_range_spec. by eapply cleaned_in_range. }
  split; [done|]. split.
  - intros e He Hvalid. apply Float64Facts.in_range_value; auto.
  - intros i l. by apply out_of_range_dropped.
Qed.

Section Example_C6.
Import Reference.

Lemma cleaned_delta_e_in_open_interval_witness :
  (∀ r, r ∈ in_range_rows Reference.table → is_Some (Composition (comp r))) ∧
  ∃ cleaned, load_oqmd Reference.table = Some cleaned ∧
    (∀ e : Entry, e ∈ cleaned →
       Float64.gt (delta_e e) (Float64.of_int (-20)) = true ∧
       Float64.lt (delta_e e) (Float64.of_int 5) = true) ∧
    (∀ e : Entry, e ∈ cleaned → Float64.valid (delta_e e) = true →
       ∃ q, Float64.value (delta_e e) = Some q ∧ (-20 < q)%Q ∧ (q < 5)%Q) ∧
    (∀ i l, Reference.table !! i = Some l →
       delta_e_in_range (to_numeric_columns (labelled i l)) = false →
       i ∉ index_of cleaned).
Proof.
  assert (∀ r, r ∈ in_range_rows Reference.table → is_Some (Composition (comp r))) as Hok.
  { apply Forall_forall, (bool_decide_unpack _). vm_compute. exact I. }
  split; [exact Hok|]. exact (cleaned_delta_e_in_open_interval Reference.table Hok).
Defined.

(** Both bounds are exclusive: a row at exactly 5 or exactly -20 is
    dropped. *)
Example bounds_are_exclusive :
  index_of <$> load_oqmd [line "H2" "5"; line "He" "-20"; line "O2" "4.5"; line "N2" "-19.5"]
  = Some [3; 2].
Proof. vm_compute. reflexivity. Qed.

End Example_C6.

(** ** Missing enthalpies *)

Section MissingFacts.
Context `{!Pandas, !Pymatgen}.

(** A text cell that is not a number becomes NaN. *)
Lemma to_numeric_coerce s : str_to_float s = None → to_numeric (Text s) = S754_nan.
Proof. intros Hs. simpl. rewrite Hs. by destruct (isna_text s). Qed.

(** Both comparisons of the range query are false on NaN. *)
Lemma nan_comparisons y : Float64.gt S754_nan y = false ∧ Float64.lt S754_nan y = false.
Proof. by destruct y. Qed.

Lemma nan_out_of_range (r : Row nat spec_float) :
  delta_e r = S754_nan → delta_e_in_range r = false.
Proof. unfold delta_e_in_range. intros ->. by rewrite (proj1 (nan_comparisons _)). Qed.

Lemma quaternary_subset cleaned elems (e : Entry) :
  e ∈ Quaternary.get_test_data cleaned elems → e ∈ cleaned.
Proof. by intros [_ ?]%list_elem_of_filter. Qed.

Lemma pairwise_subset cleaned elems (e : Entry) :
  e ∈ Pairwise.get_test_data cleaned elems → e ∈ cleaned.
Proof. by intros [_ ?]%list_elem_of_filter. Qed.

Lemma train_subset cleaned test train (e : Entry) :
  train_set_of cleaned test = Some train → e ∈ train → e ∈ cleaned.
Proof.
  intros Htrain He.
  destruct (train_set_of_Some cleaned test) as (train' & Htrain' & Hmem & _).
  assert (train' = train) as -> by congruence. by apply Hmem in He as [? _].
Qed.

End MissingFacts.

(** C10. Every entry of the cleaned frame has a formation enthalpy that is
    a number.  A cell that fails numeric parsing is coerced to NaN, both
    comparisons of the range query are false on NaN, so the row is
    rejected and leaves no entry; hence no NaN enthalpy reaches the cleaned
    frame, a test set, a training set or the columns that are exported. *)
Theorem cleaned_delta_e_not_missing `{!Pandas, !Pymatgen} (table : list Line) cleaned :
  load_oqmd table = Some cleaned →
  (∀ e : Entry, e ∈ cleaned → Float64.isna (delta_e e) = false) ∧
  (∀ i l s, table !! i = Some l → delta_e l = Text s → str_to_float s = None →
     to_numeric (delta_e l) = S754_nan ∧
     Float64.gt (to_numeric (delta_e l)) (Float64.of_int (-20)) = false ∧
     Float64.lt (to_numeric (delta_e l)) (Float64.of_int 5) = false ∧
     i ∉ index_of cleaned) ∧
  (∀ elems (e : Entry),
     e ∈ Quaternary.get_test_data cleaned elems ∨ e ∈ Pairwise.get_test_data cleaned elems →
     Float64.isna (delta_e e) = false) ∧
  (∀ test train (e : Entry), train_set_of cleaned test = Some train → e ∈ train →
     Float64.isna (delta_e e) = false) ∧
  (∀ data, data ⊆ cleaned → ∀ cd, cd ∈ save_magpie data → Float64.isna cd.2 = false).
Proof.
  intros Hload.
  assert (∀ e : Entry, e ∈ cleaned → Float64.isna (delta_e e) = false) as Hnum.
  { intros e He. apply delta_e_in_range_not_nan. by eapply cleaned_in_range. }
  split; [done|]. split; [|split; [|split]].
  - intros i l s Hl Hcell Hs.
    assert (to_numeric (delta_e l) = S754_nan) as Hnan
      by (rewrite Hcell; by apply to_numeric_coerce).
    split; [done|]. rewrite Hnan.
    split; [apply nan_comparisons|]. split; [apply nan_comparisons|].
    apply (out_of_range_dropped table cleaned i l); [done..|].
    by apply nan_out_of_range.
  - intros elems e [He|He]; apply Hnum.
    + by eapply quaternary_subset.
    + by eapply pairwise_subset.
  - intros test train e Htrain He. apply Hnum. by eapply train_subset.
  - intros data Hdata cd (e & -> & He)%list_elem_of_fmap. simpl. apply Hnum. by apply Hdata.
Qed.

Section Example_C10.
Import Reference.

Lemma cleaned_delta_e_not_missing_witness :
  load_oqmd table = Some cleaned ∧
  (∀ e : Entry, e ∈ cleaned → Float64.isna (delta_e e) = false) ∧
  (∀ i l s, table !! i = Some l → delta_e l = Text s → str_to_float s = None →
     to_numeric (delta_e l) = S754_nan ∧
     Float64.gt (to_numeric (delta_e l)) (Float64.of_int (-20)) = false ∧
     Float64.lt (to_numeric (delta_e l)) (Float64.of_int 5) = false ∧
     i ∉ index_of cleaned) ∧
  (∀ elems (e : Entry),
     e ∈ Quaternary.get_test_data cleaned elems ∨
     e ∈ Pairwise.get_test_data cleaned elems →
     Float64.isna (delta_e e) = false) ∧
  (∀ test train (e : Entry), train_set_of cleaned test = Some train → e ∈ train →
     Float64.isna (delta_e e) = false) ∧
  (∀ data, data ⊆ cleaned → ∀ cd, cd ∈ save_magpie data → Float64.isna cd.2 = false).
Proof.
  assert (load_oqmd table = Some cleaned) as Hload by run_load.
  split; [exact Hload|]. exact (cleaned_delta_e_not_missing table cleaned Hload).
Defined.

End Example_C10.

(** ** One entry per reduced formula *)

(** C4. After the sort by formation enthalpy and the removal of later
    duplicates, the cleaned frame has at most one entry per reduced formula;
    the entry that is kept has the least formation enthalpy among all rows
    in range with that formula (as the float64 comparison and, for float64
    in canonical form, on the numbers they stand for), and every such
    formula keeps an entry. *)
Theorem cleaned_lowest_energy_per_formula `{!Pandas, !Pymatgen} (table : list Line) cleaned :
  load_oqmd table = Some cleaned →
  NoDup ((λ e : Entry, pretty_comp e) <$> cleaned) ∧
  (∀ (e : Entry) (r : Row nat spec_float) c,
     e ∈ cleaned → r ∈ in_range_rows table →
     Composition (comp r) = Some c → reduced_formula c = pretty_comp e →
     SFleb (delta_e e) (delta_e r) = true ∧
     (∀ qe qr, Float64.valid (delta_e e) = true → Float64.valid (delta_e r) = true →
               Float64.value (delta_e e) = Some qe → Float64.value (delta_e r) = Some qr →
               (qe <= qr)%Q)) ∧
  (∀ (r : Row nat spec_float) c,
     r ∈ in_range_rows table → Composition (comp r) = Some c →
     ∃ e : Entry, e ∈ cleaned ∧ pretty_comp e = reduced_formula c ∧
                  row e ∈ in_range_rows table).
Proof.
  intros Hload. pose proof Hload as (df & Hdf & ->)%load_oqmd_Some.
  assert (∀ (r : Row nat spec_float) c,
            r ∈ in_range_rows table → Composition (comp r) = Some c →
            ∃ p, p ∈ sort_values df ∧ row p = r ∧ pretty_comp p = reduced_formula c)
    as Hrow.
  { intros r c Hr Hc. destruct (mapM_add_comp_obj_elem _ _ _ Hdf Hr) as (p & Hp & Hadd).
    apply add_comp_obj_Some in Hadd as (Hrow & Hc' & Hf).
    exists p. rewrite sort_values_Permutation. split; [done|]. split; [done|]. congruence. }
  split; [|split].
  - rewrite <-list_fmap_compose. apply drop_duplicates_from_NoDup.
  - intros e r c (q & -> & Hq)%list_elem_of_fmap Hr Hc Hf. simpl in *.
    destruct (Hrow r c Hr Hc) as (p & Hp & <- & Hpf).
    assert (delta_e_le q p) as Hle.
    { apply (drop_duplicates_sorted_min (sort_values df));
        [apply sort_values_sorted|done..|congruence]. }
    unfold delta_e_le in Hle.
    rewrite Float64Facts.le_na_last_SFleb in Hle;
      [split; [done|]; intros qe qr ????;
       by apply (Float64Facts.SFleb_value (delta_e q) (delta_e p))| |].
    + apply delta_e_in_range_not_nan.
      eapply (cleaned_in_range table _ (add_system q)); [done|]. by apply list_elem_of_fmap_2.
    + apply delta_e_in_range_not_nan. by apply elem_of_in_range_rows in Hr as [? _].
  - intros r c Hr Hc. destruct (Hrow r c Hr Hc) as (p & Hp & <- & Hpf).
    destruct (drop_duplicates_from_covers ∅ (sort_values df) p Hp) as (q & Hq & Hqf);
      [apply not_elem_of_empty|].
    exists (add_system q). simpl. split; [by apply list_elem_of_fmap_2|]. split; [congruence|].
    apply (cleaned_entry table _ (add_system q) Hload). by apply list_elem_of_fmap_2.
Qed.

Section Example_C4.
Import Reference.

Lemma cleaned_lowest_energy_per_formula_witness :
  load_oqmd table = Some cleaned ∧
  NoDup ((λ e : Entry, pretty_comp e) <$> cleaned) ∧
  (∀ (e : Entry) (r : Row nat spec_float) c,
     e ∈ cleaned → r ∈ in_range_rows table →
     Composition (comp r) = Some c → reduced_formula c = pretty_comp e →
     SFleb (delta_e e) (delta_e r) = true ∧
     (∀ qe qr, Float64.valid (delta_e e) = true → Float64.valid (delta_e r) = true →
               Float64.value (delta_e e) = Some qe → Float64.value (delta_e r) = Some qr →
               (qe <= qr)%Q)) ∧
  (∀ (r : Row nat spec_float) c,
     r ∈ in_range_rows table → Composition (comp r) = Some c →
     ∃ e : Entry, e ∈ cleaned ∧ pretty_comp e = reduced_formula c ∧
                  row e ∈ in_range_rows table).
Proof.
  assert (load_oqmd table = Some cleaned) as Hload by run_load.
  split; [exact Hload|]. exact (cleaned_lowest_energy_per_formula table cleaned Hload).
Defined.

(** The scenario of the specification: of two rows of Fe2O3 the one at -3.5
    is kept. *)
Example fe2o3_keeps_lowest :
  (λ e : Entry, (index e, comp e, pretty_comp e)) <$> cleaned =
  [(4, "Fe4O6", "Fe2O3"); (1, "Na2O", "Na2O"); (0, "NaCl", "ClNa"); (2, "KCl", "ClK")].
Proof. vm_compute. reflexivity. Qed.

End Example_C4.

(** ** Test set and training set *)

(** C5. For either filter the training set exists, holds exactly the
    entries of the cleaned frame whose index label is not a label of the
    test set, shares no entry and no label with the test set, and together
    with the test set makes up the cleaned frame, each entry once. *)
Theorem train_test_split `{!Pandas, !Pymatgen} (table : list Line) cleaned elems test :
  load_oqmd table = Some cleaned →
  test = Quaternary.get_test_data cleaned elems ∨ test = Pairwise.get_test_data cleaned elems →
  ∃ train, train_set_of cleaned test = Some train ∧
    (∀ e : Entry, e ∈ train ↔ e ∈ cleaned ∧ index e ∉ index_of test) ∧
    (∀ e : Entry, e ∈ train → e ∉ test) ∧
    (∀ i, i ∈ index_of train → i ∉ index_of test) ∧
    (∀ e : Entry, e ∈ cleaned ↔ e ∈ train ∨ e ∈ test) ∧
    train ++ test ≡ₚ cleaned.
Proof.
  intros Hload%cleaned_index_NoDup Htest.
  assert (∃ (P : Entry → Prop) (Hdec : ∀ e, Decision (P e)), test = filter P cleaned)
    as (P & Hdec & ->).
  { destruct Htest as [->| ->]; unfold Quaternary.get_test_data, Pairwise.get_test_data; eauto. }
  destruct (train_test_partition cleaned P Hload)
    as (train & Htrain & Hmem & _ & Hdisj & Hidx & Hperm).
  exists train. split; [exact Htrain|]. split; [exact Hmem|]. split; [exact Hdisj|].
  split; [exact Hidx|]. split; [|exact Hperm].
  intros e. rewrite <-elem_of_app. by rewrite Hperm.
Qed.

Section Example_C5.
Import Reference.

Lemma train_test_split_witness :
  load_oqmd table = Some cleaned ∧
  (Quaternary.get_test_data cleaned ["Na"; "O"] = Quaternary.get_test_data cleaned ["Na"; "O"] ∨
   Quaternary.get_test_data cleaned ["Na"; "O"] = Pairwise.get_test_data cleaned ["Na"; "O"]) ∧
  ∃ train, train_set_of cleaned (Quaternary.get_test_data cleaned ["Na"; "O"]) = Some train ∧
    (∀ e : Entry, e ∈ train ↔
       e ∈ cleaned ∧ index e ∉ index_of (Quaternary.get_test_data cleaned ["Na"; "O"])) ∧
    (∀ e : Entry, e ∈ train → e ∉ Quaternary.get_test_data cleaned ["Na"; "O"]) ∧
    (∀ i, i ∈ index_of train → i ∉ index_of (Quaternary.get_test_data cleaned ["Na"; "O"])) ∧
    (∀ e : Entry, e ∈ cleaned ↔ e ∈ train ∨ e ∈ Quaternary.get_test_data cleaned ["Na"; "O"]) ∧
    train ++ Quaternary.get_test_data cleaned ["Na"; "O"] ≡ₚ cleaned.
Proof.
  assert (load_oqmd table = Some cleaned) as Hload by run_load.
  split; [exact Hload|]. split; [left; reflexivity|].
  exact (train_test_split table cleaned ["Na"; "O"] _ Hload (or_introl eq_refl)).
Defined.

(** The training set comes back in the order of the index labels, not in
    the order of the frame. *)
Example train_set_order :
  index_of cleaned = [4; 1; 0; 2] ∧
  index_of (Quaternary.get_test_data cleaned ["Na"; "O"]) = [1] ∧
  index_of <$> train_set_of cleaned (Quaternary.get_test_data cleaned ["Na"; "O"]) = Some [0; 2; 4].
Proof. vm_compute. done. Qed.

End Example_C5.

(** ** System labels *)

Lemma sorted_Permutation xs : PyStr.sorted xs ≡ₚ xs.
Proof. apply merge_sort_Permutation. Qed.

Lemma sorted_Sorted xs : Sorted String.le (PyStr.sorted xs).
Proof. apply Sorted_merge_sort. apply _. Qed.

(** The symbols of a label: those of the tuple, each once, in order. *)
Lemma elem_of_sorted_set comb x :
  x ∈ PyStr.sorted (elements (list_to_set comb : gset string)) ↔ x ∈ comb.
Proof. by rewrite sorted_Permutation, elem_of_elements, elem_of_list_to_set. Qed.

Lemma sorted_set_NoDup comb :
  NoDup (PyStr.sorted (elements (list_to_set comb : gset string))).
Proof. rewrite sorted_Permutation. apply NoDup_elements. Qed.

Lemma sorted_set_symbols comb :
  Forall (λ y, is_symbol y = true) comb →
  Forall (λ y, is_symbol y = true) (PyStr.sorted (elements (list_to_set comb : gset string))).
Proof.
  intros Hcomb. apply Forall_forall. intros x Hx.
  apply (proj1 (elem_of_sorted_set comb x)) in Hx.
  by apply (proj1 (Forall_forall _ _) Hcomb).
Qed.

(** The label of a tuple depends only on the set of its components. *)
Lemma label_of_ext comb1 comb2 :
  (∀ x, x ∈ comb1 ↔ x ∈ comb2) → label_of comb1 = label_of comb2.
Proof.
  intros E. unfold label_of.
  assert ((list_to_set comb1 : gset string) = list_to_set comb2) as ->; [|done].
  apply set_eq. intros x. by rewrite !elem_of_list_to_set.
Qed.

(** A list of distinct symbols in ascending order is its own label. *)
Lemma label_of_sorted ys :
  Sorted String.le ys → NoDup ys → label_of ys = PyStr.join "-" ys.
Proof.
  intros Hsorted Hnd. unfold label_of. f_equal.
  apply (Sorted_unique String.le); [apply sorted_Sorted|done|].
  rewrite sorted_Permutation. by apply elements_list_to_set.
Qed.

(** Iterating in canonical order and carrying the canonical label are the
    same thing for a composition. *)
Lemma join_is_label_iff ys :
  Forall (λ y, is_symbol y = true) ys →
  PyStr.join "-" ys = label_of ys ↔ Sorted String.le ys ∧ NoDup ys.
Proof.
  intros Hys. split.
  - intros E. apply label_inj in E; [|done|by apply sorted_set_symbols].
    rewrite E. split; [apply sorted_Sorted|apply sorted_set_NoDup].
  - intros [Hsorted Hnd]. symmetry. by apply label_of_sorted.
Qed.

(** ** The enumeration of the constituent systems *)

Lemma elem_of_product {A} (pools : list (list A)) (t : list A) :
  t ∈ product pools ↔ Forall2 (λ x pool, x ∈ pool) t pools.
Proof.
  revert t. induction pools as [|pool pools IH]; intros t; simpl.
  - rewrite list_elem_of_singleton. split; [intros ->; constructor|].
    by intros ->%Forall2_nil_inv_r.
  - rewrite list_elem_of_bind. split.
    + intros (x & (t' & ->%list_elem_of_singleton & Ht')%list_elem_of_bind & Hx).
      constructor; [done|]. by apply IH.
    + intros Ht. inversion Ht as [|x pool' t' pools' Hx Ht']; subst.
      exists x. split; [|done]. apply list_elem_of_bind. exists t'.
      split; [by apply list_elem_of_singleton|]. by apply IH.
Qed.

(** The tuples of the product of [n] copies of a pool. *)
Lemma elem_of_product_replicate {A} (pool : list A) n (t : list A) :
  t ∈ product (replicate n pool) ↔ length t = n ∧ Forall (λ x, x ∈ pool) t.
Proof.
  rewrite elem_of_product. revert t. induction n as [|n IH]; intros t; simpl.
  - split.
    + intros ->%Forall2_nil_inv_r. by split.
    + intros [->%nil_length_inv _]. constructor.
  - split.
    + intros Ht. inversion Ht as [|x pool' t' pools' Hx Ht']; subst.
      apply IH in Ht' as [<- Hall]. split; [done|]. by constructor.
    + intros [Hlen Hall]. destruct Hall as [|x t' Hx Hall]; [done|].
      constructor; [done|]. apply IH. split; [|done]. simpl in Hlen. lia.
Qed.

Lemma elem_of_foldl_add {A} (f : A → string) (l : list A) (acc : gset string) s :
  s ∈ foldl (λ systems comb, {[f comb]} ∪ systems) acc l ↔
  s ∈ acc ∨ ∃ comb, comb ∈ l ∧ s = f comb.
Proof.
  revert acc. induction l as [|c l IH]; intros acc; simpl.
  - split; [by left|]. intros [?|(? & ?%elem_of_nil & _)]; done.
  - rewrite IH, elem_of_union, elem_of_singleton. split.
    + intros [[->|?]|(comb & ? & ->)]; [right; exists c|by left|right; exists comb];
        (split; [|done]); [left|by right].
    + intros [?|(comb & [->|?]%elem_of_cons & ->)]; [left; by right|left; by left|right; eauto].
Qed.

Lemma elem_of_constituent_systems elems s :
  s ∈ Quaternary.constituent_systems elems ↔
  ∃ comb, length comb = length elems ∧ Forall (λ x, x ∈ elems) comb ∧ s = label_of comb.
Proof.
  unfold Quaternary.constituent_systems. rewrite elem_of_foldl_add. split.
  - intros [?%elem_of_empty|(comb & [? ?]%elem_of_product_replicate & ->)]; [done|eauto].
  - intros (comb & Hlen & Hall & ->). right. exists comb. split; [|done].
    by apply elem_of_product_replicate.
Qed.

Lemma elem_of_sublists {A} (l s : list A) : s ∈ sublists l ↔ s `sublist_of` l.
Proof.
  revert s. induction l as [|x l IH]; intros s; simpl.
  - by rewrite list_elem_of_singleton, sublist_nil_r.
  - rewrite elem_of_app, list_elem_of_fmap, sublist_cons_r, IH. split.
    + intros [(s' & -> & Hs'%IH)|?]; [right; eauto|by left].
    + intros [?|(s' & -> & Hs')]; [by right|left]. exists s'. by rewrite IH.
Qed.

Lemma elem_of_powerset_systems elems s :
  s ∈ powerset_systems elems ↔
  ∃ sub, sub `sublist_of` elems ∧ sub ≠ [] ∧ s = label_of sub.
Proof.
  unfold powerset_systems. rewrite elem_of_list_to_set, list_elem_of_fmap. split.
  - intros (sub & -> & [Hne Hsub%elem_of_sublists]%list_elem_of_filter). eauto.
  - intros (sub & Hsub & Hne & ->). exists sub. split; [done|].
    apply list_elem_of_filter. by rewrite elem_of_sublists.
Qed.

(** A non-empty list of members of the target is the set of some tuple of
    the product: take its members once each and pad with the first. *)
Lemma tuple_of_subset elems (sub : list string) :
  sub ≠ [] → (∀ x, x ∈ sub → x ∈ elems) →
  ∃ comb, length comb = length elems ∧ Forall (λ x, x ∈ elems) comb ∧
          ∀ x, x ∈ comb ↔ x ∈ sub.
Proof.
  intros Hne Hsub.
  destruct (remove_dups sub) as [|h once] eqn:Honce.
  { destruct sub as [|x sub']; [done|].
    assert (x ∈ remove_dups (x :: sub')) as Hx by (apply elem_of_remove_dups; left).
    rewrite Honce in Hx. by apply elem_of_nil in Hx. }
  assert (∀ x, x ∈ h :: once ↔ x ∈ sub) as Hsame
    by (intros x; by rewrite <-Honce, elem_of_remove_dups).
  assert (length (h :: once) ≤ length elems) as Hlen.
  { apply submseteq_length, NoDup_submseteq.
    - rewrite <-Honce. apply NoDup_remove_dups.
    - intros x Hx%Hsame. by apply Hsub. }
  exists ((h :: once) ++ replicate (length elems - length (h :: once)) h). split; [|split].
  - rewrite length_app, length_replicate. lia.
  - apply Forall_app. split.
    + apply Forall_forall. intros x Hx%Hsame. by apply Hsub.
    + apply Forall_replicate, Hsub, Hsame. left.
  - intros x. rewrite <-Hsame, elem_of_app, elem_of_replicate. split; [|by left].
    intros [?|[-> _]]; [done|left].
Qed.

(** C8. For a target of at least one element, the labels that the product
    of [n] copies of the target produces are exactly the labels of the
    non-empty subsets of the target, and the quaternary filter returns the
    same rows with either enumeration. *)
Theorem product_enumeration_is_powerset `{!Pymatgen}
    (elems : list string) (oqmd_data : list Entry) :
  elems ≠ [] →
  Quaternary.constituent_systems elems = powerset_systems elems ∧
  Quaternary.get_test_data oqmd_data elems = PowerSet.get_test_data oqmd_data elems.
Proof.
  intros Hne.
  assert (Quaternary.constituent_systems elems = powerset_systems elems) as Heq.
  { apply set_eq. intros s.
    rewrite elem_of_constituent_systems, elem_of_powerset_systems. split.
    - intros (comb & Hlen & Hall & ->).
      assert (∀ x, x ∈ filter (λ x, x ∈ comb) elems ↔ x ∈ comb) as Hsame.
      { intros x. rewrite list_elem_of_filter. split; [by intros [? _]|].
        intros Hx. split; [done|]. by apply (proj1 (Forall_forall _ _) Hall). }
      exists (filter (λ x, x ∈ comb) elems). split; [apply sublist_filter|]. split.
      + destruct comb as [|x comb]; [by destruct elems|].
        intros Hnil. assert (x ∈ filter (λ y, y ∈ x :: comb) elems) as Hx
          by (apply Hsame; left).
        rewrite Hnil in Hx. by apply elem_of_nil in Hx.
      + by apply label_of_ext.
    - intros (sub & Hsub & Hsubne & ->).
      destruct (tuple_of_subset elems sub Hsubne) as (comb & Hlen & Hall & Hsame).
      + intros x Hx. by eapply elem_of_sublist.
      + exists comb. split; [done|]. split; [done|]. by apply label_of_ext. }
  split; [done|]. unfold Quaternary.get_test_data, PowerSet.get_test_data. by rewrite Heq.
Qed.

Section Example_C8.
Import Reference.

Lemma product_enumeration_is_powerset_witness :
  ["Na"; "Fe"; "Mn"; "O"] ≠ [] ∧
  Quaternary.constituent_systems ["Na"; "Fe"; "Mn"; "O"] =
  powerset_systems ["Na"; "Fe"; "Mn"; "O"] ∧
  Quaternary.get_test_data cleaned ["Na"; "Fe"; "Mn"; "O"] =
  PowerSet.get_test_data cleaned ["Na"; "Fe"; "Mn"; "O"].
Proof.
  assert (["Na"; "Fe"; "Mn"; "O"] ≠ @nil string) as Hne by discriminate.
  split; [exact Hne|].
  exact (product_enumeration_is_powerset ["Na"; "Fe"; "Mn"; "O"] cleaned Hne).
Defined.

(** The fifteen systems of the quaternary of the notebook. *)
Example systems_of_Na_Fe_Mn_O :
  PyStr.sorted (elements (Quaternary.constituent_systems ["Na"; "Fe"; "Mn"; "O"])) =
  ["Fe"; "Fe-Mn"; "Fe-Mn-Na"; "Fe-Mn-Na-O"; "Fe-Mn-O"; "Fe-Na"; "Fe-Na-O"; "Fe-O";
   "Mn"; "Mn-Na"; "Mn-Na-O"; "Mn-O"; "Na"; "Na-O"; "O"].
Proof. vm_compute. reflexivity. Qed.

(** Without an element the two enumerations differ: the product has the
    empty tuple, whose label is the empty string. *)
Example enumerations_differ_on_empty_target :
  Quaternary.constituent_systems [] = {[ "" ]} ∧ powerset_systems [] = ∅.
Proof. split; reflexivity. Qed.

End Example_C8.

(** ** The pairwise filter *)

Section FilterFacts.
Context `{!Pandas, !Pymatgen}.

Lemma hit_spec elems x :
  Pairwise.hit elems x = true ↔ ∀ e, e ∈ elems → e ∈ PyStr.split hyphen x.
Proof.
  unfold Pairwise.hit. induction elems as [|e elems IH]; simpl.
  - split; [|done]. by intros _ e ?%elem_of_nil.
  - rewrite andb_true_iff, bool_decide_eq_true, IH. split.
    + intros [He Hall] e' [->|?]%elem_of_cons; auto.
    + intros Hall. split; [apply Hall; left|]. intros e' He'. apply Hall. by right.
Qed.

(** Splitting the label of an entry gives its symbols back, except for a
    composition without element, whose label is empty. *)
Lemma split_system table cleaned (e : Entry) :
  load_oqmd table = Some cleaned → e ∈ cleaned →
  PyStr.split hyphen (system e) =
  match symbols (comp_obj_of e) with [] => [""] | _ :: _ => symbols (comp_obj_of e) end.
Proof.
  intros Hload He. pose proof (cleaned_symbols _ _ _ Hload He) as Hwf.
  destruct (cleaned_entry _ _ _ Hload He) as (_ & _ & _ & _ & ->).
  destruct (symbols (comp_obj_of e)) as [|y ys] eqn:E; [done|].
  by apply split_label.
Qed.

Lemma elem_of_element_set (e : Entry) x :
  x ∈ element_set e ↔ x ∈ symbols (comp_obj_of e).
Proof. unfold element_set. by rewrite elem_of_list_to_set. Qed.

(** A symbol is among the parts of the label of an entry exactly when it
    is an element of the entry. *)
Lemma elem_of_split_system table cleaned (e : Entry) x :
  load_oqmd table = Some cleaned → e ∈ cleaned → is_symbol x = true →
  x ∈ PyStr.split hyphen (system e) ↔ x ∈ element_set e.
Proof.
  intros Hload He Hx. rewrite (split_system _ _ _ Hload He), elem_of_element_set.
  destruct (symbols (comp_obj_of e)) as [|y ys]; [|done].
  rewrite list_elem_of_singleton, elem_of_nil. split; [|done]. by intros ->.
Qed.

(** An entry whose label is the label of a tuple of symbols has the
    components of the tuple as its elements. *)
Lemma system_is_label table cleaned (e : Entry) comb :
  load_oqmd table = Some cleaned → e ∈ cleaned →
  Forall (λ y, is_symbol y = true) comb → system e = label_of comb →
  symbols (comp_obj_of e) = PyStr.sorted (elements (list_to_set comb : gset string)).
Proof.
  intros Hload He Hcomb Hsys. pose proof (cleaned_symbols _ _ _ Hload He) as Hwf.
  destruct (cleaned_entry _ _ _ Hload He) as (_ & _ & _ & _ & Hjoin).
  apply label_inj; [done|by apply sorted_set_symbols|]. by rewrite <-Hjoin.
Qed.

Lemma filter_nil_intro {A} (P : A → Prop) `{!∀ x, Decision (P x)} (l : list A) :
  (∀ x, x ∈ l → ¬ P x) → filter P l = [].
Proof.
  intros Hl. destruct (filter P l) as [|x k] eqn:E; [done|].
  assert (x ∈ filter P l) as [HP Hx]%list_elem_of_filter by (rewrite E; left).
  by destruct (Hl x Hx).
Qed.

End FilterFacts.

(** C2. For a target [P] of element symbols the pairwise filter returns
    exactly the entries of the cleaned frame whose element set contains
    every element of [P]. *)
Theorem pairwise_filter_sound_complete `{!Pandas, !Pymatgen}
    (table : list Line) cleaned (P : list string) (e : Entry) :
  load_oqmd table = Some cleaned →
  Forall (λ y, is_symbol y = true) P →
  e ∈ Pairwise.get_test_data cleaned P ↔
  e ∈ cleaned ∧ (list_to_set P : gset string) ⊆ element_set e.
Proof.
  intros Hload HP. unfold Pairwise.get_test_data.
  rewrite list_elem_of_filter, hit_spec. split.
  - intros [Hhit He]. split; [done|]. intros x Hx%elem_of_list_to_set.
    apply (elem_of_split_system table cleaned e x Hload He); [|by apply Hhit].
    by apply (proj1 (Forall_forall _ _) HP).
  - intros [He Hsub]. split; [|done]. intros x Hx.
    apply (elem_of_split_system table cleaned e x Hload He).
    + by apply (proj1 (Forall_forall _ _) HP).
    + by apply Hsub, elem_of_list_to_set.
Qed.

Section Example_C2.
Import Reference.

(** The entry of Na2O in the reference table. *)
Lemma pairwise_filter_sound_complete_witness :
  load_oqmd table = Some cleaned ∧
  Forall (λ y, is_symbol y = true) ["Na"] ∧
  ∀ e : Entry, e ∈ Pairwise.get_test_data cleaned ["Na"] ↔
               e ∈ cleaned ∧ (list_to_set ["Na"] : gset string) ⊆ element_set e.
Proof.
  assert (load_oqmd table = Some cleaned) as Hload by run_load.
  assert (Forall (λ y, is_symbol y = true) ["Na"]) as HP by (repeat constructor).
  split; [exact Hload|]. split; [exact HP|].
  intros e. exact (pairwise_filter_sound_complete table cleaned ["Na"] e Hload HP).
Defined.

(** The scenario of the specification: the filter on Na returns NaCl and
    Na2O and leaves KCl to the training set. *)
Example pairwise_on_Na :
  (λ e : Entry, comp e) <$> Pairwise.get_test_data cleaned ["Na"] = ["Na2O"; "NaCl"] ∧
  (λ train : list Entry, (λ e : Entry, comp e) <$> train) <$>
    train_set_of cleaned (Pairwise.get_test_data cleaned ["Na"]) = Some ["KCl"; "Fe4O6"].
Proof. vm_compute. done. Qed.

End Example_C2.

(** ** Elements that the frame does not have *)

(** C9. A target element that no entry of the cleaned frame has is not an
    error.  Every label of a subset of the target that involves the element
    matches no row, and the pairwise filter returns no row; if the whole
    target is absent the quaternary filter returns no row either; and for
    an empty test set the training set exists and holds the entries of the
    cleaned frame, each once. *)
Theorem absent_element_matches_nothing `{!Pandas, !Pymatgen}
    (table : list Line) cleaned (elems : list string) :
  load_oqmd table = Some cleaned →
  Forall (λ y, is_symbol y = true) elems →
  (∀ x, (∀ e : Entry, e ∈ cleaned → x ∉ element_set e) →
     (∀ sub, sub ⊆ elems → x ∈ sub →
        filter (λ e : Entry, system e = label_of sub) cleaned = []) ∧
     (x ∈ elems → Pairwise.get_test_data cleaned elems = [])) ∧
  (elems ≠ [] →
   (∀ x (e : Entry), x ∈ elems → e ∈ cleaned → x ∉ element_set e) →
     Quaternary.get_test_data cleaned elems = [] ∧
     Pairwise.get_test_data cleaned elems = []) ∧
  (∃ train, train_set_of cleaned [] = Some train ∧
            train ≡ₚ cleaned ∧ ∀ e : Entry, e ∈ train ↔ e ∈ cleaned).
Proof.
  intros Hload Helems.
  assert (∀ x sub, (∀ e : Entry, e ∈ cleaned → x ∉ element_set e) →
            sub ⊆ elems → x ∈ sub →
            ∀ e : Entry, e ∈ cleaned → system e ≠ label_of sub) as Hlabel.
  { intros x sub Habsent Hsub Hx e He Hsys.
    assert (Forall (λ y, is_symbol y = true) sub) as Hwf.
    { apply Forall_forall. intros y Hy. apply (proj1 (Forall_forall _ _) Helems). by apply Hsub. }
    apply (Habsent e He), elem_of_element_set.
    rewrite (system_is_label table cleaned e sub Hload He Hwf Hsys).
    by apply elem_of_sorted_set. }
  assert (∀ x, (∀ e : Entry, e ∈ cleaned → x ∉ element_set e) → x ∈ elems →
            Pairwise.get_test_data cleaned elems = []) as Hpair.
  { intros x Habsent Hx. apply filter_nil_intro. intros e He Hhit.
    apply (Habsent e He).
    apply (elem_of_split_system table cleaned e x Hload He).
    - by apply (proj1 (Forall_forall _ _) Helems).
    - by apply (proj1 (hit_spec elems (system e)) Hhit). }
  split; [|split].
  - intros x Habsent. split; [|by apply Hpair].
    intros sub Hsub Hx. apply filter_nil_intro. intros e He. by apply (Hlabel x sub).
  - intros Hne Habsent. split.
    + apply filter_nil_intro. intros e He.
      intros (comb & Hlen & Hall & Hsys)%elem_of_constituent_systems.
      destruct comb as [|x comb]; [by destruct elems|].
      pose proof (proj1 (Forall_forall _ _) Hall) as Hin.
      refine (Hlabel x (x :: comb) _ _ _ e He Hsys).
      * intros e' He'. apply Habsent; [|done]. apply Hin. left.
      * intros y Hy. by apply Hin.
      * left.
    + destruct elems as [|x elems']; [done|].
      apply (Hpair x); [|left]. intros e He. apply Habsent; [left|done].
  - destruct (train_test_partition cleaned (λ _, False) (cleaned_index_NoDup _ _ Hload))
      as (train & Htrain & _ & Hmem & _ & _ & Hperm).
    assert (filter (λ _ : Entry, False) cleaned = []) as Hnil
      by (apply filter_nil_intro; tauto).
    rewrite Hnil in Htrain, Hperm. rewrite app_nil_r in Hperm.
    exists train. split; [done|]. split; [done|]. intros e. by rewrite Hperm.
Qed.

Section Example_C9.
Import Reference.

Lemma absent_element_matches_nothing_witness :
  load_oqmd table = Some cleaned ∧
  Forall (λ y, is_symbol y = true) ["Xe"; "Rn"] ∧
  (∀ x, (∀ e : Entry, e ∈ cleaned → x ∉ element_set e) →
     (∀ sub, sub ⊆ ["Xe"; "Rn"] → x ∈ sub →
        filter (λ e : Entry, system e = label_of sub) cleaned = []) ∧
     (x ∈ ["Xe"; "Rn"] → Pairwise.get_test_data cleaned ["Xe"; "Rn"] = [])) ∧
  (["Xe"; "Rn"] ≠ [] →
   (∀ x (e : Entry), x ∈ ["Xe"; "Rn"] → e ∈ cleaned → x ∉ element_set e) →
     Quaternary.get_test_data cleaned ["Xe"; "Rn"] = [] ∧
     Pairwise.get_test_data cleaned ["Xe"; "Rn"] = []) ∧
  (∃ train, train_set_of cleaned [] = Some train ∧
            train ≡ₚ cleaned ∧ ∀ e : Entry, e ∈ train ↔ e ∈ cleaned).
Proof.
  assert (load_oqmd table = Some cleaned) as Hload by run_load.
  assert (Forall (λ y, is_symbol y = true) ["Xe"; "Rn"]) as Hwf by (repeat constructor).
  split; [exact Hload|]. split; [exact Hwf|].
  exact (absent_element_matches_nothing table cleaned ["Xe"; "Rn"] Hload Hwf).
Defined.

(** An absent target on the reference table: both test sets are empty and
    the training set is the cleaned frame, in the order of the frame (the
    difference with an empty index is not sorted). *)
Example absent_target :
  index_of (Quaternary.get_test_data cleaned ["Xe"; "Rn"]) = [] ∧
  index_of (Pairwise.get_test_data cleaned ["Xe"; "Rn"]) = [] ∧
  index_of cleaned = [4; 1; 0; 2] ∧
  index_of <$> train_set_of cleaned [] = Some [4; 1; 0; 2].
Proof. vm_compute. done. Qed.

(** A target of which one element is present: the subsets without the
    absent element still match. *)
Example partly_absent_target :
  (λ e : Entry, comp e) <$> Quaternary.get_test_data cleaned ["Fe"; "O"; "Xe"] = ["Fe4O6"].
Proof. vm_compute. reflexivity. Qed.

End Example_C9.

(** ** The quaternary filter *)

Section QuaternaryFacts.
Context `{!Pandas, !Pymatgen}.

(** What the quaternary filter returns for a target of at least one element
    symbol: the entries whose elements all belong to the target, provided
    that their label is the canonical one, that is, provided that the
    composition yields its elements once each and in ascending order. *)
Lemma quaternary_filter_returns
    (table : list Line) cleaned (elems : list string) (e : Entry) :
  load_oqmd table = Some cleaned →
  elems ≠ [] → Forall (λ y, is_symbol y = true) elems →
  e ∈ Quaternary.get_test_data cleaned elems ↔
  e ∈ cleaned ∧ element_set e ⊆ list_to_set elems ∧ element_set e ≠ ∅ ∧
  system e = label_of (symbols (comp_obj_of e)).
Proof.
  intros Hload Hne Helems. unfold Quaternary.get_test_data.
  rewrite list_elem_of_filter, elem_of_constituent_systems. split.
  - intros [(comb & Hlen & Hall & Hsys) He]. split; [done|].
    pose proof (proj1 (Forall_forall _ _) Hall) as Hin.
    assert (Forall (λ y, is_symbol y = true) comb) as Hwf.
    { apply Forall_forall. intros y Hy. apply (proj1 (Forall_forall _ _) Helems). by apply Hin. }
    pose proof (system_is_label table cleaned e comb Hload He Hwf Hsys) as Hsym.
    assert (∀ x, x ∈ element_set e ↔ x ∈ comb) as Hsame.
    { intros x. by rewrite elem_of_element_set, Hsym, elem_of_sorted_set. }
    split; [|split].
    + intros x Hx%Hsame. apply elem_of_list_to_set. by apply Hin.
    + destruct comb as [|x comb]; [by destruct elems|].
      intros Hempty. assert (x ∈ element_set e) as Hx by (apply Hsame; left).
      rewrite Hempty in Hx. by apply elem_of_empty in Hx.
    + rewrite Hsys. apply label_of_ext. intros x.
      by rewrite <-Hsame, elem_of_element_set.
  - intros (He & Hsub & Hnonempty & Hsys). split; [|done].
    destruct (tuple_of_subset elems (symbols (comp_obj_of e))) as (comb & Hlen & Hall & Hsame).
    + intros Hnil. apply Hnonempty. unfold element_set. by rewrite Hnil.
    + intros x Hx%elem_of_element_set. by apply Hsub, elem_of_list_to_set in Hx.
    + exists comb. split; [done|]. split; [done|]. rewrite Hsys. by apply label_of_ext.
Qed.

(** Soundness holds as the specification states it. *)
Lemma quaternary_filter_sound
    (table : list Line) cleaned (elems : list string) (e : Entry) :
  load_oqmd table = Some cleaned →
  elems ≠ [] → Forall (λ y, is_symbol y = true) elems →
  e ∈ Quaternary.get_test_data cleaned elems →
  e ∈ cleaned ∧ element_set e ⊆ list_to_set elems ∧ element_set e ≠ ∅.
Proof.
  intros Hload Hne Helems He.
  apply (quaternary_filter_returns table cleaned elems e Hload Hne Helems) in He.
  tauto.
Qed.

(** The label of an entry is the canonical one exactly when the composition
    yields its elements once each and in ascending order. *)
Lemma system_canonical_iff (table : list Line) cleaned (e : Entry) :
  load_oqmd table = Some cleaned → e ∈ cleaned →
  system e = label_of (symbols (comp_obj_of e)) ↔
  Sorted String.le (symbols (comp_obj_of e)) ∧ NoDup (symbols (comp_obj_of e)).
Proof.
  intros Hload He. pose proof (cleaned_symbols _ _ _ Hload He) as Hwf.
  destruct (cleaned_entry _ _ _ Hload He) as (_ & _ & _ & _ & ->).
  by apply join_is_label_iff.
Qed.

(** Completeness holds for the entries whose composition yields its
    elements in ascending order. *)
Lemma quaternary_filter_complete_sorted
    (table : list Line) cleaned (elems : list string) (e : Entry) :
  load_oqmd table = Some cleaned →
  elems ≠ [] → Forall (λ y, is_symbol y = true) elems →
  e ∈ cleaned → element_set e ⊆ list_to_set elems → element_set e ≠ ∅ →
  Sorted String.le (symbols (comp_obj_of e)) → NoDup (symbols (comp_obj_of e)) →
  e ∈ Quaternary.get_test_data cleaned elems.
Proof.
  intros Hload Hne Helems He Hsub Hnonempty Hsorted Hnd.
  apply (quaternary_filter_returns table cleaned elems e Hload Hne Helems).
  split; [done|]. split; [done|]. split; [done|].
  by apply (system_canonical_iff table cleaned e Hload He).
Qed.

End QuaternaryFacts.


Section Example_C1.
Import Reference.

(** C1. On the first scenario of the specification the quaternary filter
    with the target Na, Cl returns nothing, although the entry of NaCl has
    exactly these two elements: its label is Na-Cl, in the order of the
    formula, and the filter looks for Cl-Na, Cl and Na. *)
Theorem quaternary_filter_misses_NaCl :
  load_oqmd scenario = Some scenario_cleaned ∧
  (λ e : Entry, (comp e, symbols (comp_obj_of e), system e)) <$> scenario_cleaned =
    [("Na2O", ["Na"; "O"], "Na-O"); ("NaCl", ["Na"; "Cl"], "Na-Cl");
     ("KCl", ["K"; "Cl"], "K-Cl")] ∧
  (λ e : Entry, comp e) <$>
    filter (λ e : Entry, element_set e ⊆ list_to_set ["Na"; "Cl"]) scenario_cleaned
    = ["NaCl"] ∧
  PyStr.sorted (elements (Quaternary.constituent_systems ["Na"; "Cl"])) = ["Cl"; "Cl-Na"; "Na"] ∧
  Quaternary.get_test_data scenario_cleaned ["Na"; "Cl"] = [].
Proof.
  split; [run_load|].
  split; [vm_compute; reflexivity|]. split; [vm_compute; reflexivity|].
  split; [vm_compute; reflexivity|].
  apply (fmap_nil_inv (λ e : Entry, comp e)). vm_compute. reflexivity.
Qed.

(** With the formulas written in alphabetical order, as they are in the
    OQMD table, the same scenario goes as the specification says. *)
Example quaternary_on_sorted_formulas :
  (λ df : list Entry, (λ e : Entry, comp e) <$> Quaternary.get_test_data df ["Na"; "Cl"]) <$>
    load_oqmd [line "Cl1Na1" "-1.0"; line "Na2O1" "-2.0"; line "Cl1K1" "-0.5"]
  = Some ["Cl1Na1"].
Proof. vm_compute. reflexivity. Qed.

End Example_C1.

Section Example_C3.
Import Reference.

(** C3. The label of an entry is the join of its symbols in the order in
    which the composition yields them, which is the order of the formula:
    NaCl is labelled Na-Cl where the sorted symbols give Cl-Na, and two
    entries with the same two elements carry two different labels. *)
Theorem system_label_follows_formula_order :
  load_oqmd two_orders = Some two_orders_cleaned ∧
  (λ e : Entry, (comp e, system e, label_of (symbols (comp_obj_of e)))) <$> two_orders_cleaned =
    [("NaCl", "Na-Cl", "Cl-Na"); ("Cl2Na", "Cl-Na", "Cl-Na")] ∧
  (λ e : Entry, PyStr.sorted (elements (element_set e))) <$> two_orders_cleaned =
    [["Cl"; "Na"]; ["Cl"; "Na"]].
Proof.
  split; [run_load|].
  split; vm_compute; reflexivity.
Qed.

End Example_C3.

(** * Further properties of the notebook *)

(** ** Joining and splitting *)

Module PyStrRoundTrip.
Import PyStr.

Lemma append_nil_r s : s +:+ "" = s.
Proof. induction s as [|c s IH]; [done|]. change (String c (s +:+ "") = String c s). by f_equal. Qed.

Lemma append_assoc s1 s2 s3 : (s1 +:+ s2) +:+ s3 = s1 +:+ (s2 +:+ s3).
Proof.
  induction s1 as [|c s1 IH]; [done|].
  change (String c ((s1 +:+ s2) +:+ s3) = String c (s1 +:+ (s2 +:+ s3))). by f_equal.
Qed.

Lemma length_append s1 s2 :
  String.length (s1 +:+ s2) = String.length s1 + String.length s2.
Proof.
  induction s1 as [|c s1 IH]; [done|].
  change (S (String.length (s1 +:+ s2)) = S (String.length s1 + String.length s2)).
  by f_equal.
Qed.

(** Two strings that end in suffixes of one length end in the same suffix. *)
Lemma append_inj_suffix s1 s2 t1 t2 :
  String.length t1 = String.length t2 → s1 +:+ t1 = s2 +:+ t2 → s1 = s2 ∧ t1 = t2.
Proof.
  intros Hlen. revert s2. induction s1 as [|c s1 IH]; intros [|d s2].
  - done.
  - intros E. apply (f_equal String.length) in E.
    change (String.length t1 = S (String.length (s2 +:+ t2))) in E.
    rewrite length_append in E. lia.
  - intros E. apply (f_equal String.length) in E.
    change (S (String.length (s1 +:+ t1)) = String.length t2) in E.
    rewrite length_append in E. lia.
  - change (String c (s1 +:+ t1) = String d (s2 +:+ t2) → String c s1 = String d s2 ∧ t1 = t2).
    intros [= -> E]. by destruct (IH _ E) as [-> ->].
Qed.

Lemma join_cons sep x y ys :
  join sep (x :: y :: ys) = x +:+ sep +:+ join sep (y :: ys).
Proof. done. Qed.

Lemma join_String sep c w ws :
  join sep (String c w :: ws) = String c (join sep (w :: ws)).
Proof. by destruct ws. Qed.

Lemma split_cons_inv sep c s :
  split sep (String c s) =
  if Ascii.eqb c sep then "" :: split sep s
  else match split sep s with
       | [] => [String c ""]
       | w :: ws => String c w :: ws
       end.
Proof. done. Qed.

End PyStrRoundTrip.

(** X1. Joining the parts of a split with the separator gives the string
    back, for every string: ["-".join(x.split("-")) == x]. *)
Theorem join_split (sep : ascii) (s : string) :
  PyStr.join (String sep "") (PyStr.split sep s) = s.
Proof.
  induction s as [|c s IH]; [done|].
  rewrite PyStrRoundTrip.split_cons_inv.
  destruct (Ascii.eqb_spec c sep) as [->|Hne].
  - destruct (PyStr.split sep s) as [|w ws] eqn:E; [by destruct (PyStrFacts.split_not_nil sep s)|].
    rewrite PyStrRoundTrip.join_cons, IH. done.
  - destruct (PyStr.split sep s) as [|w ws] eqn:E; [by destruct (PyStrFacts.split_not_nil sep s)|].
    by rewrite PyStrRoundTrip.join_String, IH.
Qed.

(** X2. Splitting a join gives the parts back when no part contains the
    separator and there is at least one part: the parts of a label are
    recovered by [split]. *)
Theorem split_join_parts (sep : ascii) (xs : list string) :
  Forall (λ x, PyStr.free_of sep x = true) xs → xs ≠ [] →
  PyStr.split sep (PyStr.join (String sep "") xs) = xs.
Proof. apply PyStrFacts.split_join. Qed.

Lemma split_join_parts_witness :
  Forall (λ x, PyStr.free_of hyphen x = true) ["Fe"; "Mn"; "Na"; "O"] ∧
  ["Fe"; "Mn"; "Na"; "O"] ≠ [] ∧
  PyStr.split hyphen (PyStr.join "-" ["Fe"; "Mn"; "Na"; "O"]) = ["Fe"; "Mn"; "Na"; "O"].
Proof.
  assert (Forall (λ x, PyStr.free_of hyphen x = true) ["Fe"; "Mn"; "Na"; "O"]) as Hfree
    by (repeat constructor).
  assert (["Fe"; "Mn"; "Na"; "O"] ≠ @nil string) as Hne by discriminate.
  split; [exact Hfree|]. split; [exact Hne|].
  exact (split_join_parts hyphen ["Fe"; "Mn"; "Na"; "O"] Hfree Hne).
Defined.

(** A part that contains the separator is cut in two, and the empty list
    joins to the string that splits into one empty part. *)
Example split_join_edge :
  PyStr.split hyphen (PyStr.join "-" ["a-b"; "c"]) = ["a"; "b"; "c"] ∧
  PyStr.split hyphen (PyStr.join "-" []) = [""].
Proof. done. Qed.

(** ** Where the entries come from *)

(** X3. Every entry of the cleaned frame is a line of the table, found at
    the entry's index label: the composition is the line's, each numeric
    column is the line's cell made numeric, and the derived columns are
    computed from the composition. The load alters no value. *)
Theorem entry_is_line_of_table `{!Pandas, !Pymatgen} (table : list Line) cleaned (e : Entry) :
  load_oqmd table = Some cleaned → e ∈ cleaned →
  ∃ l, table !! index e = Some l ∧
       comp e = comp l ∧
       energy_pa e = to_numeric (energy_pa l) ∧
       volume_pa e = to_numeric (volume_pa l) ∧
       magmom_pa e = to_numeric (magmom_pa l) ∧
       bandgap e = to_numeric (bandgap l) ∧
       delta_e e = to_numeric (delta_e l) ∧
       stability e = to_numeric (stability l) ∧
       Composition (comp l) = Some (comp_obj_of e) ∧
       pretty_comp e = reduced_formula (comp_obj_of e) ∧
       nelems e = length (symbols (comp_obj_of e)) ∧
       system e = PyStr.join "-" (symbols (comp_obj_of e)).
Proof.
  intros Hload He.
  destruct (cleaned_entry _ _ _ Hload He) as (Hrow & Hc & Hf & Hn & Hs).
  apply elem_of_in_range_rows in Hrow as (_ & i & l & Hl & Hrow).
  exists l. rewrite Hrow in *. simpl in *. done.
Qed.

Section Example_X3.
Import Reference.

Lemma entry_is_line_of_table_witness :
  load_oqmd table = Some cleaned ∧
  ∀ e : Entry, e ∈ cleaned →
  ∃ l, table !! index e = Some l ∧
       comp e = comp l ∧
       energy_pa e = to_numeric (energy_pa l) ∧
       volume_pa e = to_numeric (volume_pa l) ∧
       magmom_pa e = to_numeric (magmom_pa l) ∧
       bandgap e = to_numeric (bandgap l) ∧
       delta_e e = to_numeric (delta_e l) ∧
       stability e = to_numeric (stability l) ∧
       Composition (comp l) = Some (comp_obj_of e) ∧
       pretty_comp e = reduced_formula (comp_obj_of e) ∧
       nelems e = length (symbols (comp_obj_of e)) ∧
       system e = PyStr.join "-" (symbols (comp_obj_of e)).
Proof.
  assert (load_oqmd table = Some cleaned) as Hload by run_load.
  split; [exact Hload|]. intros e He.
  exact (entry_is_line_of_table table cleaned e Hload He).
Defined.

End Example_X3.


Section Example_X4.
Import Reference.

(** A formula that does not parse stops the load when its row is inside
    the interval, and only then. *)
Example unparsed_composition :
  load_oqmd [line "NaCl" "-1.0"; line "?" "-2.0"] = None ∧
  index_of <$> load_oqmd [line "NaCl" "-1.0"; line "?" "-25"] = Some [0].
Proof. split; vm_compute; reflexivity. Qed.

(** The text NaN parses as a formula, but [read_csv] has made a missing
    value of it: the load stops on a row inside the interval, and not on
    one outside. *)
Example missing_composition :
  Composition_str "NaN" = Some [("Na", 1); ("N", 1)] ∧
  Composition "NaN" = None ∧
  load_oqmd [line "NaN" "-1.0"; line "KCl" "-0.5"] = None ∧
  index_of <$> load_oqmd [line "NaN" "-25"; line "KCl" "-0.5"] = Some [1].
Proof. repeat split; vm_compute; reflexivity. Qed.

End Example_X4.

(** ** What the range query keeps *)

(** X5. For a line whose enthalpy is a canonical float64, the range query
    keeps the line exactly when the enthalpy stands for a number strictly
    between -20 and 5; infinities and NaN are dropped with the numbers
    outside the interval. *)
Theorem query_keeps_open_interval `{!Pandas, !Pymatgen} (table : list Line) i l :
  table !! i = Some l →
  Float64.valid (to_numeric (delta_e l)) = true →
  to_numeric_columns (labelled i l) ∈ in_range_rows table ↔
  ∃ q, Float64.value (to_numeric (delta_e l)) = Some q ∧ (-20 < q)%Q ∧ (q < 5)%Q.
Proof.
  intros Hl Hvalid. rewrite elem_of_in_range_rows.
  rewrite <-(Float64Facts.in_range_value _ Hvalid).
  change (to_numeric (delta_e l)) with (delta_e (to_numeric_columns (labelled i l))).
  rewrite <-delta_e_in_range_spec. split; [by intros [? _]|]. eauto 6.
Qed.

Section Example_X5.
Import Reference.

Lemma query_keeps_open_interval_witness :
  table !! 0 = Some (line "NaCl" "-1.0") ∧
  Float64.valid (to_numeric (delta_e (line "NaCl" "-1.0"))) = true ∧
  (to_numeric_columns (labelled 0 (line "NaCl" "-1.0")) ∈ in_range_rows table ↔
   ∃ q, Float64.value (to_numeric (delta_e (line "NaCl" "-1.0"))) = Some q ∧
        (-20 < q)%Q ∧ (q < 5)%Q).
Proof.
  assert (table !! 0 = Some (line "NaCl" "-1.0")) as Hl by reflexivity.
  assert (Float64.valid (to_numeric (delta_e (line "NaCl" "-1.0"))) = true) as Hv
    by (vm_compute; reflexivity).
  split; [exact Hl|]. split; [exact Hv|].
  exact (query_keeps_open_interval table 0 (line "NaCl" "-1.0") Hl Hv).
Defined.

End Example_X5.

(** ** The order of the rows *)

Section OrderFacts.
Context `{!Pandas, !Pymatgen}.

Lemma StronglySorted_sublist {A} (R : relation A) (l k : list A) :
  l `sublist_of` k → StronglySorted R k → StronglySorted R l.
Proof.
  induction 1 as [|x l k Hsub IH|x l k Hsub IH]; [done|..].
  - intros [Hall Hk]%StronglySorted_cons. apply StronglySorted_cons. split; [|by apply IH].
    apply Forall_forall. intros y Hy. apply (proj1 (Forall_forall _ _) Hall).
    by eapply elem_of_sublist.
  - intros [_ Hk]%StronglySorted_cons. by apply IH.
Qed.

Lemma StronglySorted_mono_elem {A} (R R' : relation A) (l : list A) :
  (∀ x y, x ∈ l → y ∈ l → R x y → R' x y) → StronglySorted R l → StronglySorted R' l.
Proof.
  intros Hmono Hl. induction Hl as [|x l Hl IH Hall]; [constructor|].
  constructor.
  - apply IH. intros y z Hy Hz. apply Hmono; by right.
  - apply Forall_forall. intros y Hy. apply Hmono; [left|by right|].
    by apply (proj1 (Forall_forall _ _) Hall).
Qed.

Lemma kept_sorted df : StronglySorted delta_e_le (drop_duplicates (sort_values df)).
Proof.
  eapply StronglySorted_sublist; [apply drop_duplicates_from_sublist|apply sort_values_sorted].
Qed.

End OrderFacts.

(** X6. The cleaned frame is in ascending order of formation enthalpy, and
    so is every test set, since both filters return their rows in the order
    of the frame. *)
Theorem cleaned_sorted_by_delta_e `{!Pandas, !Pymatgen} (table : list Line) cleaned elems :
  load_oqmd table = Some cleaned →
  StronglySorted (λ e1 e2 : Entry, SFleb (delta_e e1) (delta_e e2) = true) cleaned ∧
  Quaternary.get_test_data cleaned elems `sublist_of` cleaned ∧
  Pairwise.get_test_data cleaned elems `sublist_of` cleaned ∧
  StronglySorted (λ e1 e2 : Entry, SFleb (delta_e e1) (delta_e e2) = true)
                 (Quaternary.get_test_data cleaned elems) ∧
  StronglySorted (λ e1 e2 : Entry, SFleb (delta_e e1) (delta_e e2) = true)
                 (Pairwise.get_test_data cleaned elems).
Proof.
  intros Hload.
  assert (StronglySorted (λ e1 e2 : Entry, SFleb (delta_e e1) (delta_e e2) = true) cleaned)
    as Hsorted.
  { apply (StronglySorted_mono_elem (λ e1 e2 : Entry, delta_e_le e1 e2)).
    - intros e1 e2 He1 He2 Hle. unfold delta_e_le in Hle.
      rewrite Float64Facts.le_na_last_SFleb in Hle; [done|..];
        apply delta_e_in_range_not_nan; by eapply cleaned_in_range.
    - pose proof Hload as (df & Hdf & ->)%load_oqmd_Some.
      apply (StronglySorted_fmap add_system delta_e_le); [done|apply kept_sorted]. }
  split; [done|]. split; [apply sublist_filter|]. split; [apply sublist_filter|].
  split; (eapply StronglySorted_sublist; [apply sublist_filter|done]).
Qed.

Section Example_X6.
Import Reference.

Lemma cleaned_sorted_by_delta_e_witness :
  load_oqmd table = Some cleaned ∧
  StronglySorted (λ e1 e2 : Entry, SFleb (delta_e e1) (delta_e e2) = true) cleaned ∧
  Quaternary.get_test_data cleaned ["Na"; "O"] `sublist_of` cleaned ∧
  Pairwise.get_test_data cleaned ["Na"; "O"] `sublist_of` cleaned ∧
  StronglySorted (λ e1 e2 : Entry, SFleb (delta_e e1) (delta_e e2) = true)
                 (Quaternary.get_test_data cleaned ["Na"; "O"]) ∧
  StronglySorted (λ e1 e2 : Entry, SFleb (delta_e e1) (delta_e e2) = true)
                 (Pairwise.get_test_data cleaned ["Na"; "O"]).
Proof.
  assert (load_oqmd table = Some cleaned) as Hload by run_load.
  split; [exact Hload|]. exact (cleaned_sorted_by_delta_e table cleaned ["Na"; "O"] Hload).
Defined.

End Example_X6.

Section TrainOrderFacts.
Context `{!Pymatgen}.





End TrainOrderFacts.


Section Example_X7.
Import Reference.


(** The two orders on the reference table: the frame is in the order of the
    enthalpies, the training set of a test set with one row is in the order
    of the labels, and the training set of the empty test set is in the
    order of the frame. *)
Example train_set_orders :
  index_of cleaned = [4; 1; 0; 2] ∧
  index_of <$> train_set_of cleaned (Quaternary.get_test_data cleaned ["Na"; "O"]) =
    Some [0; 2; 4] ∧
  index_of <$> train_set_of cleaned (Quaternary.get_test_data cleaned ["Xe"]) =
    Some [4; 1; 0; 2].
Proof. vm_compute. done. Qed.

End Example_X7.

(** ** How many rows *)

(** X8. The counts that the notebook prints add up: for either filter the
    sizes of the training set and of the test set sum to the size of the
    cleaned frame, which is at most the number of lines read. *)
Theorem split_sizes_add_up `{!Pandas, !Pymatgen} (table : list Line) cleaned elems :
  load_oqmd table = Some cleaned →
  length cleaned ≤ length table ∧
  (∃ train, train_set_of cleaned (Quaternary.get_test_data cleaned elems) = Some train ∧
            length train + length (Quaternary.get_test_data cleaned elems) = length cleaned) ∧
  (∃ train, train_set_of cleaned (Pairwise.get_test_data cleaned elems) = Some train ∧
            length train + length (Pairwise.get_test_data cleaned elems) = length cleaned).
Proof.
  intros Hload. pose proof (cleaned_index_NoDup _ _ Hload) as Hidx. split; [|split].
  - pose proof Hload as (df & Hdf & ->)%load_oqmd_Some.
    rewrite length_fmap.
    etransitivity; [apply sublist_length, drop_duplicates_from_sublist|].
    rewrite sort_values_Permutation, <-(length_mapM _ _ _ Hdf).
    unfold in_range_rows, query_delta_e.
    etransitivity; [apply length_filter|].
    unfold read_csv. by rewrite length_fmap, length_imap.
  - destruct (train_test_partition cleaned
                (λ r : Entry, system r ∈ Quaternary.constituent_systems elems) Hidx)
      as (train & Htrain & _ & _ & _ & _ & Hperm).
    exists train. split; [done|].
    apply Permutation_length in Hperm. by rewrite length_app in Hperm.
  - destruct (train_test_partition cleaned
                (λ r : Entry, Pairwise.hit elems (system r) = true) Hidx)
      as (train & Htrain & _ & _ & _ & _ & Hperm).
    exists train. split; [done|].
    apply Permutation_length in Hperm. by rewrite length_app in Hperm.
Qed.

Section Example_X8.
Import Reference.

Lemma split_sizes_add_up_witness :
  load_oqmd table = Some cleaned ∧
  length cleaned ≤ length table ∧
  (∃ train, train_set_of cleaned (Quaternary.get_test_data cleaned ["Na"; "O"]) = Some train ∧
            length train + length (Quaternary.get_test_data cleaned ["Na"; "O"]) = length cleaned) ∧
  (∃ train, train_set_of cleaned (Pairwise.get_test_data cleaned ["Na"; "O"]) = Some train ∧
            length train + length (Pairwise.get_test_data cleaned ["Na"; "O"]) = length cleaned).
Proof.
  assert (load_oqmd table = Some cleaned) as Hload by run_load.
  split; [exact Hload|]. exact (split_sizes_add_up table cleaned ["Na"; "O"] Hload).
Defined.

End Example_X8.

(** X9. The size of the cleaned frame is the number of distinct reduced
    formulas among the rows inside the interval. *)
Theorem cleaned_size_is_number_of_formulas `{!Pandas, !Pymatgen} (table : list Line) cleaned :
  load_oqmd table = Some cleaned →
  length cleaned =
  size (list_to_set (omap (λ r : Row nat spec_float, reduced_formula <$> Composition (comp r))
                          (in_range_rows table)) : gset string).
Proof.
  intros Hload. pose proof Hload as (df & Hdf & Hcleaned)%load_oqmd_Some.
  assert (length cleaned = length (pretty_comp <$> drop_duplicates (sort_values df))) as ->
    by by rewrite Hcleaned, !length_fmap.
  rewrite <-(size_list_to_set (C:=gset string)) by apply drop_duplicates_from_NoDup.
  f_equal. apply set_eq. intros f.
  rewrite !elem_of_list_to_set, list_elem_of_fmap, list_elem_of_omap. split.
  - intros (p & -> & Hp%elem_of_kept).
    destruct (elem_of_mapM_add_comp_obj _ _ _ Hdf Hp) as [Hrow Hadd].
    apply add_comp_obj_Some in Hadd as (_ & Hc & Hf).
    exists (row p). split; [done|]. by rewrite Hc, Hf.
  - intros (r & Hr & Hf).
    destruct (mapM_add_comp_obj_elem _ _ _ Hdf Hr) as (p & Hp & Hadd).
    apply add_comp_obj_Some in Hadd as (<- & Hc & Hpf).
    rewrite Hc in Hf. injection Hf as <-.
    destruct (drop_duplicates_from_covers ∅ (sort_values df) p) as (q & Hq & Hqf).
    + by rewrite sort_values_Permutation.
    + apply not_elem_of_empty.
    + exists q. split; [congruence|done].
Qed.

Section Example_X9.
Import Reference.

Lemma cleaned_size_is_number_of_formulas_witness :
  load_oqmd table = Some cleaned ∧
  length cleaned =
  size (list_to_set (omap (λ r : Row nat spec_float, reduced_formula <$> Composition (comp r))
                          (in_range_rows table)) : gset string).
Proof.
  assert (load_oqmd table = Some cleaned) as Hload by run_load.
  split; [exact Hload|]. exact (cleaned_size_is_number_of_formulas table cleaned Hload).
Defined.

(** Eight lines are read, five are inside the interval, four formulas are
    left. *)
Example sizes_of_the_reference_table :
  length table = 8 ∧ length (in_range_rows table) = 5 ∧ length cleaned = 4.
Proof. vm_compute. done. Qed.

End Example_X9.

(** ** The frequency of the systems *)

Lemma sum_list_Permutation_eq (l k : list nat) : l ≡ₚ k → sum_list l = sum_list k.
Proof. induction 1; simpl; lia. Qed.

Lemma count_of_filter_ne s d (col : list string) :
  s ≠ d → count_of s (filter (λ x, x ≠ d) col) = count_of s col.
Proof.
  intros Hne. unfold count_of. rewrite list_filter_filter. f_equal.
  apply list_filter_iff. intros x. split; [by intros [? _]|]. intros ->. done.
Qed.

Lemma length_filter_split (d : string) (col : list string) :
  length col = count_of d col + length (filter (λ x, x ≠ d) col).
Proof.
  unfold count_of. rewrite <-length_app.
  apply Permutation_length. symmetry. apply (filter_app_complement (λ x, x = d)).
Qed.

(** The counts of the distinct values of a column add up to its length. *)
Lemma sum_counts (col values : list string) :
  NoDup values → (∀ x, x ∈ col → x ∈ values) →
  sum_list ((λ s, count_of s col) <$> values) = length col.
Proof.
  intros Hnd. revert col. induction Hnd as [|d values Hd Hnd IH]; intros col Hcol.
  { destruct col as [|x col]; [done|].
    assert (x ∈ @nil string) as Hx by (apply Hcol; left). by apply elem_of_nil in Hx. }
  rewrite fmap_cons. simpl. rewrite (length_filter_split d col). f_equal.
  rewrite <-(IH (filter (λ x, x ≠ d) col)).
  - apply (f_equal sum_list), list_fmap_ext. intros i s Hs.
    symmetry. apply count_of_filter_ne. intros ->.
    apply Hd. by eapply list_elem_of_lookup_2.
  - intros x [Hx Hin]%list_elem_of_filter.
    by apply Hcol, elem_of_cons in Hin as [?|?].
Qed.

#[local] Instance more_frequent_trans : Transitive more_frequent.
Proof. intros a b c. unfold more_frequent. lia. Qed.

#[local] Instance more_frequent_total : Total more_frequent.
Proof. intros a b. unfold more_frequent. lia. Qed.

Lemma elem_of_value_counts (col : list string) s n :
  (s, n) ∈ value_counts col ↔ s ∈ col ∧ n = count_of s col.
Proof.
  unfold value_counts. rewrite merge_sort_Permutation, list_elem_of_fmap.
  setoid_rewrite elem_of_remove_dups. split.
  - by intros (s' & [= -> ->] & Hs).
  - intros [Hs ->]. eauto.
Qed.

Lemma value_counts_labels (col : list string) : (value_counts col).*1 ≡ₚ remove_dups col.
Proof.
  unfold value_counts. rewrite merge_sort_Permutation, <-list_fmap_compose.
  by rewrite list_fmap_id.
Qed.

Lemma count_of_pos s (col : list string) : s ∈ col → 0 < count_of s col.
Proof.
  intros Hs. unfold count_of.
  destruct (filter (λ x, x = s) col) as [|x l] eqn:E; [|simpl; lia].
  by destruct (filter_nil_not_elem_of _ _ s E eq_refl).
Qed.

(** X10. The frequency table of the system labels lists every label of the
    frame once, with the number of entries that carry it, the larger counts
    first, and the counts add up to the size of the frame.  Its first ten
    rows, which the notebook shows, are at most ten labels, and an entry
    whose label is not shown carries a label that is no more frequent than
    any label shown. *)
Theorem top_systems_spec `{!Pymatgen} (oqmd_data : list Entry) :
  let col := (λ r : Entry, system r) <$> oqmd_data in
  NoDup (value_counts col).*1 ∧
  (∀ s n, (s, n) ∈ value_counts col ↔
          s ∈ col ∧ n = length (filter (λ r : Entry, system r = s) oqmd_data)) ∧
  StronglySorted more_frequent (value_counts col) ∧
  sum_list (value_counts col).*2 = length oqmd_data ∧
  length (top_systems oqmd_data) ≤ 10 ∧
  (∀ s n, (s, n) ∈ top_systems oqmd_data → (s, n) ∈ value_counts col ∧ 0 < n) ∧
  (∀ s n (e : Entry), (s, n) ∈ top_systems oqmd_data → e ∈ oqmd_data →
     system e ∉ (top_systems oqmd_data).*1 →
     length (filter (λ r : Entry, system r = system e) oqmd_data) ≤ n).
Proof.
  intros col.
  assert (∀ s, count_of s col = length (filter (λ r : Entry, system r = s) oqmd_data))
    as Hcount.
  { intros s. unfold count_of, col. clear. induction oqmd_data as [|r l IH]; [done|].
    rewrite fmap_cons, !filter_cons. destruct (decide (system r = s)); simpl; by rewrite IH. }
  assert (StronglySorted more_frequent (value_counts col)) as Hsorted
    by (apply StronglySorted_merge_sort; apply _).
  assert (∀ s n, (s, n) ∈ top_systems oqmd_data → (s, n) ∈ value_counts col) as Htop.
  { intros s n Hs. unfold top_systems in Hs. fold col in Hs.
    rewrite <-(take_drop 10 (value_counts col)). apply elem_of_app. by left. }
  split; [|split; [|split; [|split; [|split; [|split]]]]].
  - rewrite value_counts_labels. apply NoDup_remove_dups.
  - intros s n. by rewrite elem_of_value_counts, Hcount.
  - done.
  - transitivity (sum_list ((λ s, count_of s col) <$> remove_dups col)).
    + apply sum_list_Permutation_eq. unfold value_counts.
      rewrite merge_sort_Permutation, <-list_fmap_compose. done.
    + rewrite (sum_counts col (remove_dups col));
        [unfold col; by rewrite length_fmap|apply NoDup_remove_dups|].
      intros x. by rewrite elem_of_remove_dups.
  - apply firstn_le_length.
  - intros s n Hs. split; [by apply Htop|].
    apply Htop, elem_of_value_counts in Hs as [Hs ->]. by apply count_of_pos.
  - intros s n e Hs He Hnot. rewrite <-Hcount.
    assert ((system e, count_of (system e) col) ∈ value_counts col) as Hin.
    { apply elem_of_value_counts. split; [|done].
      by apply (list_elem_of_fmap_2 (λ r : Entry, system r)). }
    unfold top_systems in Hs, Hnot. fold col in Hs, Hnot.
    rewrite <-(take_drop 10 (value_counts col)) in Hin, Hsorted.
    apply elem_of_app in Hin as [Hin|Hin].
    { destruct Hnot. by apply (list_elem_of_fmap_2 fst) in Hin. }
    by apply (StronglySorted_app_1_elem_of _ _ _ _ _ Hsorted Hs Hin).
Qed.

Section Example_X10.
Import Reference.

(** The frequency table of a small frame. *)
Example top_systems_of_a_table :
  top_systems <$> load_oqmd [line "Na2O" "-2.0"; line "NaO" "-1.0"; line "NaCl" "-1.5";
                             line "TiO2" "-3.0"; line "Na2O3" "-0.5"; line "TiO" "-2.5"]
  = Some [("Na-O", 3); ("Ti-O", 2); ("Na-Cl", 1)].
Proof. vm_compute. reflexivity. Qed.

End Example_X10.

(** ** The target of a filter *)

Section TargetFacts.
Context `{!Pymatgen}.

(** A larger target has every system of a smaller one. *)
Lemma constituent_systems_mono (elems elems' : list string) :
  elems ≠ [] → (∀ x, x ∈ elems → x ∈ elems') →
  Quaternary.constituent_systems elems ⊆ Quaternary.constituent_systems elems'.
Proof.
  intros Hne Hsub s. rewrite !elem_of_constituent_systems.
  intros (comb & Hlen & Hall & ->).
  destruct (tuple_of_subset elems' comb) as (comb' & Hlen' & Hall' & Hsame).
  - destruct comb; [by destruct elems|done].
  - intros x Hx. apply Hsub. by apply (proj1 (Forall_forall _ _) Hall).
  - exists comb'. split; [done|]. split; [done|]. apply label_of_ext. intros x.
    by rewrite Hsame.
Qed.

Lemma hit_mono (elems elems' : list string) x :
  (∀ e, e ∈ elems → e ∈ elems') → Pairwise.hit elems' x = true → Pairwise.hit elems x = true.
Proof. rewrite !hit_spec. auto. Qed.

Lemma filter_all {A} (l : list A) : filter (λ _, True) l = l.
Proof. induction l as [|x l IH]; [done|]. by rewrite filter_cons_True, IH. Qed.

Lemma pairwise_empty_target (oqmd_data : list Entry) :
  Pairwise.get_test_data oqmd_data [] = filter (λ _ : Entry, True) oqmd_data.
Proof. by apply list_filter_iff. Qed.

End TargetFacts.

(** X11. Widening the target widens the quaternary test set and narrows
    the pairwise one: every entry returned by the quaternary filter for a
    target is returned for any target that contains it, and every entry
    returned by the pairwise filter for a target is returned for any part
    of it. *)
Theorem filters_monotone `{!Pymatgen} (oqmd_data : list Entry) (elems elems' : list string) :
  elems ≠ [] → (∀ x, x ∈ elems → x ∈ elems') →
  (∀ e : Entry, e ∈ Quaternary.get_test_data oqmd_data elems →
                e ∈ Quaternary.get_test_data oqmd_data elems') ∧
  (∀ e : Entry, e ∈ Pairwise.get_test_data oqmd_data elems' →
                e ∈ Pairwise.get_test_data oqmd_data elems).
Proof.
  intros Hne Hsub. split; intros e [He Hin]%list_elem_of_filter; apply list_elem_of_filter.
  - split; [|done]. by apply (constituent_systems_mono elems elems' Hne Hsub).
  - split; [|done]. by apply (hit_mono elems elems').
Qed.

(** X12. Only the set of target elements matters: writing the target in
    another order, or with an element repeated, changes neither test set. *)
Theorem target_order_is_irrelevant `{!Pymatgen}
    (oqmd_data : list Entry) (elems elems' : list string) :
  elems ≠ [] → (∀ x, x ∈ elems ↔ x ∈ elems') →
  Quaternary.get_test_data oqmd_data elems = Quaternary.get_test_data oqmd_data elems' ∧
  Pairwise.get_test_data oqmd_data elems = Pairwise.get_test_data oqmd_data elems'.
Proof.
  intros Hne Hsame.
  assert (elems' ≠ []) as Hne'.
  { destruct elems as [|x elems]; [done|]. intros ->.
    assert (x ∈ @nil string) as Hx by (apply Hsame; left). by apply elem_of_nil in Hx. }
  split; apply list_filter_iff; intros e.
  - split; [apply (constituent_systems_mono elems elems')|apply (constituent_systems_mono elems' elems)];
      try done; intros x; by apply Hsame.
  - split; [apply (hit_mono elems' elems)|apply (hit_mono elems elems')]; intros x; by apply Hsame.
Qed.

Section Example_X11.
Import Reference.

Lemma filters_monotone_witness :
  ["Na"; "O"] ≠ [] ∧ (∀ x, x ∈ ["Na"; "O"] → x ∈ ["O"; "Cl"; "Na"]) ∧
  (∀ e : Entry, e ∈ Quaternary.get_test_data cleaned ["Na"; "O"] →
                e ∈ Quaternary.get_test_data cleaned ["O"; "Cl"; "Na"]) ∧
  (∀ e : Entry, e ∈ Pairwise.get_test_data cleaned ["O"; "Cl"; "Na"] →
                e ∈ Pairwise.get_test_data cleaned ["Na"; "O"]).
Proof.
  assert (["Na"; "O"] ≠ @nil string) as Hne by discriminate.
  assert (∀ x, x ∈ ["Na"; "O"] → x ∈ ["O"; "Cl"; "Na"]) as Hsub.
  { intros x Hx. apply (bool_decide_unpack _).
    apply elem_of_cons in Hx as [->|Hx]; [reflexivity|].
    apply elem_of_cons in Hx as [->|Hx]; [reflexivity|]. by apply elem_of_nil in Hx. }
  split; [exact Hne|]. split; [exact Hsub|].
  exact (filters_monotone cleaned ["Na"; "O"] ["O"; "Cl"; "Na"] Hne Hsub).
Defined.

Lemma target_order_is_irrelevant_witness :
  ["Na"; "Fe"; "Mn"; "O"] ≠ [] ∧
  (∀ x, x ∈ ["Na"; "Fe"; "Mn"; "O"] ↔ x ∈ ["O"; "Mn"; "Fe"; "Na"; "O"]) ∧
  Quaternary.get_test_data cleaned ["Na"; "Fe"; "Mn"; "O"] =
    Quaternary.get_test_data cleaned ["O"; "Mn"; "Fe"; "Na"; "O"] ∧
  Pairwise.get_test_data cleaned ["Na"; "Fe"; "Mn"; "O"] =
    Pairwise.get_test_data cleaned ["O"; "Mn"; "Fe"; "Na"; "O"].
Proof.
  assert (["Na"; "Fe"; "Mn"; "O"] ≠ @nil string) as Hne by discriminate.
  assert (∀ x, x ∈ ["Na"; "Fe"; "Mn"; "O"] ↔ x ∈ ["O"; "Mn"; "Fe"; "Na"; "O"]) as Hsame.
  { intros x. rewrite !elem_of_cons, !elem_of_nil. tauto. }
  split; [exact Hne|]. split; [exact Hsame|].
  exact (target_order_is_irrelevant cleaned _ _ Hne Hsame).
Defined.

End Example_X11.

(** X13. The empty target is accepted by both filters.  The product of no
    pool has one tuple, the empty one, so the quaternary filter looks for
    the empty label and returns the entries without element; the pairwise
    filter asks nothing of a row, returns the whole frame and leaves an
    empty training set. *)
Theorem empty_target `{!Pandas, !Pymatgen} (table : list Line) cleaned :
  load_oqmd table = Some cleaned →
  Quaternary.constituent_systems [] = {[ "" ]} ∧
  (∀ e : Entry, e ∈ Quaternary.get_test_data cleaned [] ↔
                e ∈ cleaned ∧ symbols (comp_obj_of e) = []) ∧
  Pairwise.get_test_data cleaned [] = cleaned ∧
  train_set_of cleaned (Pairwise.get_test_data cleaned []) = Some [].
Proof.
  intros Hload. split; [done|]. split; [|split].
  - intros e. unfold Quaternary.get_test_data. rewrite list_elem_of_filter.
    change (Quaternary.constituent_systems []) with ({[ "" ]} : gset string).
    rewrite elem_of_singleton. split.
    + intros [Hs He]. split; [done|].
      apply label_nil; [by eapply cleaned_symbols|].
      by destruct (cleaned_entry _ _ _ Hload He) as (_ & _ & _ & _ & <-).
    + intros [He Hs]. split; [|done].
      destruct (cleaned_entry _ _ _ Hload He) as (_ & _ & _ & _ & ->). by rewrite Hs.
  - rewrite (pairwise_empty_target cleaned). apply filter_all.
  - rewrite (pairwise_empty_target cleaned).
    destruct (train_test_partition cleaned (λ _, True) (cleaned_index_NoDup _ _ Hload))
      as (train & Htrain & _ & Hmem & _).
    rewrite Htrain. f_equal. destruct train as [|e train]; [done|].
    assert (e ∈ e :: train) as He by left. apply Hmem in He as [_ He]. by destruct He.
Qed.

Section Example_X13.
Import Reference.

Lemma empty_target_witness :
  load_oqmd table = Some cleaned ∧
  Quaternary.constituent_systems [] = {[ "" ]} ∧
  (∀ e : Entry, e ∈ Quaternary.get_test_data cleaned [] ↔
                e ∈ cleaned ∧ symbols (comp_obj_of e) = []) ∧
  Pairwise.get_test_data cleaned [] = cleaned ∧
  train_set_of cleaned (Pairwise.get_test_data cleaned []) = Some [].
Proof.
  assert (load_oqmd table = Some cleaned) as Hload by run_load.
  split; [exact Hload|]. exact (empty_target table cleaned Hload).
Defined.

End Example_X13.

(** ** What the hold-outs withhold *)

Section HoldoutFacts.
Context `{!Pandas, !Pymatgen}.

(** The test of the pairwise filter on an entry of the cleaned frame. *)
Lemma hit_iff_contains (table : list Line) cleaned (P : list string) (e : Entry) :
  load_oqmd table = Some cleaned → Forall (λ y, is_symbol y = true) P → e ∈ cleaned →
  Pairwise.hit P (system e) = true ↔ (list_to_set P : gset string) ⊆ element_set e.
Proof.
  intros Hload HP He. rewrite hit_spec.
  pose proof (proj1 (Forall_forall _ _) HP) as Hsym. split.
  - intros Hhit x Hx%elem_of_list_to_set.
    apply (elem_of_split_system table cleaned e x Hload He); auto.
  - intros Hsub x Hx. apply (elem_of_split_system table cleaned e x Hload He); [auto|].
    by apply Hsub, elem_of_list_to_set.
Qed.

End HoldoutFacts.

(** X14. No entry that contains every element of the pair is left in the
    training set of the pairwise hold-out, and every other entry of the
    cleaned frame is in it. *)
Theorem pairwise_train_has_no_pair `{!Pandas, !Pymatgen}
    (table : list Line) cleaned (my_pair : list string) train (e : Entry) :
  load_oqmd table = Some cleaned →
  Forall (λ y, is_symbol y = true) my_pair →
  train_set_of cleaned (Pairwise.get_test_data cleaned my_pair) = Some train →
  e ∈ train ↔ e ∈ cleaned ∧ ¬ (list_to_set my_pair : gset string) ⊆ element_set e.
Proof.
  intros Hload HP Htrain.
  destruct (train_test_partition cleaned (λ r : Entry, Pairwise.hit my_pair (system r) = true)
              (cleaned_index_NoDup _ _ Hload)) as (train' & Htrain' & _ & Hmem & _).
  assert (train' = train) as -> by (unfold Pairwise.get_test_data in Htrain; congruence).
  rewrite Hmem. split; intros [He Hno]; (split; [done|]); intros Hyes; apply Hno;
    by apply (hit_iff_contains table cleaned my_pair e Hload HP He).
Qed.

(** X15. The training set of the quaternary hold-out keeps every entry
    with an element outside the target, and it keeps an entry whose
    elements are all in the target only if the label of the entry is not
    the sorted one. *)
Theorem quaternary_train_spec `{!Pandas, !Pymatgen}
    (table : list Line) cleaned (my_system : list string) train (e : Entry) :
  load_oqmd table = Some cleaned →
  my_system ≠ [] → Forall (λ y, is_symbol y = true) my_system →
  train_set_of cleaned (Quaternary.get_test_data cleaned my_system) = Some train →
  e ∈ train ↔
  e ∈ cleaned ∧
  ¬ (element_set e ⊆ list_to_set my_system ∧ element_set e ≠ ∅ ∧
     system e = label_of (symbols (comp_obj_of e))).
Proof.
  intros Hload Hne Hsym Htrain.
  destruct (train_test_partition cleaned
              (λ r : Entry, system r ∈ Quaternary.constituent_systems my_system)
              (cleaned_index_NoDup _ _ Hload)) as (train' & Htrain' & Hidx & Hmem & _).
  assert (train' = train) as -> by (unfold Quaternary.get_test_data in Htrain; congruence).
  rewrite Hmem.
  pose proof (quaternary_filter_returns table cleaned my_system e Hload Hne Hsym) as Hret.
  unfold Quaternary.get_test_data in Hret. rewrite list_elem_of_filter in Hret.
  split; intros [He Hno]; (split; [done|]); intros Hyes; apply Hno; tauto.
Qed.

(** X16. An entry that both filters return for one target has exactly the
    elements of the target: the two test sets meet in the entries of the
    full system. *)
Theorem filters_meet_in_full_system `{!Pandas, !Pymatgen}
    (table : list Line) cleaned (elems : list string) (e : Entry) :
  load_oqmd table = Some cleaned →
  elems ≠ [] → Forall (λ y, is_symbol y = true) elems →
  e ∈ Quaternary.get_test_data cleaned elems ∧ e ∈ Pairwise.get_test_data cleaned elems ↔
  e ∈ cleaned ∧ element_set e = list_to_set elems ∧ system e = label_of elems.
Proof.
  intros Hload Hne Hsym.
  rewrite (quaternary_filter_returns table cleaned elems e Hload Hne Hsym).
  unfold Pairwise.get_test_data. rewrite list_elem_of_filter. split.
  - intros [(He & Hsub & _ & Hsys) [Hhit _]].
    apply (hit_iff_contains table cleaned elems e Hload Hsym He) in Hhit.
    assert (element_set e = list_to_set elems) as Heq by set_solver.
    split; [done|]. split; [done|]. rewrite Hsys. apply label_of_ext. intros x.
    by rewrite <-elem_of_element_set, Heq, elem_of_list_to_set.
  - intros (He & Heq & Hsys). split; [split; [done|split; [|split]]|split; [|done]].
    + by rewrite Heq.
    + rewrite Heq. destruct elems as [|x elems]; [done|]. set_solver.
    + rewrite Hsys. apply label_of_ext. intros x.
      by rewrite <-elem_of_element_set, Heq, elem_of_list_to_set.
    + apply (hit_iff_contains table cleaned elems e Hload Hsym He). by rewrite Heq.
Qed.

Section Example_X14.
Import Reference.

Lemma pairwise_train_has_no_pair_witness :
  load_oqmd table = Some cleaned ∧
  Forall (λ y, is_symbol y = true) ["Na"; "O"] ∧
  train_set_of cleaned (Pairwise.get_test_data cleaned ["Na"; "O"]) =
    Some (default [] (train_set_of cleaned (Pairwise.get_test_data cleaned ["Na"; "O"]))) ∧
  ∀ e : Entry,
    e ∈ default [] (train_set_of cleaned (Pairwise.get_test_data cleaned ["Na"; "O"])) ↔
    e ∈ cleaned ∧ ¬ (list_to_set ["Na"; "O"] : gset string) ⊆ element_set e.
Proof.
  assert (load_oqmd table = Some cleaned) as Hload by run_load.
  assert (Forall (λ y, is_symbol y = true) ["Na"; "O"]) as Hsym by (repeat constructor).
  assert (train_set_of cleaned (Pairwise.get_test_data cleaned ["Na"; "O"]) =
          Some (default [] (train_set_of cleaned (Pairwise.get_test_data cleaned ["Na"; "O"]))))
    as Htrain.
  { destruct (train_set_of_Some cleaned (Pairwise.get_test_data cleaned ["Na"; "O"]))
      as (train & -> & _). reflexivity. }
  split; [exact Hload|]. split; [exact Hsym|]. split; [exact Htrain|]. intros e.
  exact (pairwise_train_has_no_pair table cleaned ["Na"; "O"] _ e Hload Hsym Htrain).
Defined.

Lemma quaternary_train_spec_witness :
  load_oqmd table = Some cleaned ∧
  ["Na"; "O"] ≠ [] ∧
  Forall (λ y, is_symbol y = true) ["Na"; "O"] ∧
  train_set_of cleaned (Quaternary.get_test_data cleaned ["Na"; "O"]) =
    Some (default [] (train_set_of cleaned (Quaternary.get_test_data cleaned ["Na"; "O"]))) ∧
  ∀ e : Entry,
    e ∈ default [] (train_set_of cleaned (Quaternary.get_test_data cleaned ["Na"; "O"])) ↔
    e ∈ cleaned ∧
    ¬ (element_set e ⊆ list_to_set ["Na"; "O"] ∧ element_set e ≠ ∅ ∧
       system e = label_of (symbols (comp_obj_of e))).
Proof.
  assert (load_oqmd table = Some cleaned) as Hload by run_load.
  assert (["Na"; "O"] ≠ @nil string) as Hne by discriminate.
  assert (Forall (λ y, is_symbol y = true) ["Na"; "O"]) as Hsym by (repeat constructor).
  assert (train_set_of cleaned (Quaternary.get_test_data cleaned ["Na"; "O"]) =
          Some (default [] (train_set_of cleaned (Quaternary.get_test_data cleaned ["Na"; "O"]))))
    as Htrain.
  { destruct (train_set_of_Some cleaned (Quaternary.get_test_data cleaned ["Na"; "O"]))
      as (train & -> & _). reflexivity. }
  split; [exact Hload|]. split; [exact Hne|]. split; [exact Hsym|]. split; [exact Htrain|].
  intros e.
  exact (quaternary_train_spec table cleaned ["Na"; "O"] _ e Hload Hne Hsym Htrain).
Defined.

Lemma filters_meet_in_full_system_witness :
  load_oqmd table = Some cleaned ∧
  ["Na"; "O"] ≠ [] ∧
  Forall (λ y, is_symbol y = true) ["Na"; "O"] ∧
  ∀ e : Entry,
    e ∈ Quaternary.get_test_data cleaned ["Na"; "O"] ∧
    e ∈ Pairwise.get_test_data cleaned ["Na"; "O"] ↔
    e ∈ cleaned ∧ element_set e = list_to_set ["Na"; "O"] ∧ system e = label_of ["Na"; "O"].
Proof.
  assert (load_oqmd table = Some cleaned) as Hload by run_load.
  assert (["Na"; "O"] ≠ @nil string) as Hne by discriminate.
  assert (Forall (λ y, is_symbol y = true) ["Na"; "O"]) as Hsym by (repeat constructor).
  split; [exact Hload|]. split; [exact Hne|]. split; [exact Hsym|]. intros e.
  exact (filters_meet_in_full_system table cleaned ["Na"; "O"] e Hload Hne Hsym).
Defined.

End Example_X14.

(** ** How many systems a target has *)

Lemma length_sublists {A} (l : list A) : length (sublists l) = 2 ^ length l.
Proof.
  induction l as [|x l IH]; [done|].
  simpl sublists. rewrite length_app, length_fmap, IH. simpl. lia.
Qed.

Lemma length_nonempty_sublists {A} (l : list A) :
  length (filter (λ s, s ≠ []) (sublists l)) = 2 ^ length l - 1.
Proof.
  induction l as [|x l IH]; [done|].
  simpl sublists. rewrite filter_app, length_app, IH.
  assert (filter (λ s, s ≠ []) ((x ::.) <$> sublists l) = (x ::.) <$> sublists l) as ->.
  { generalize (sublists l). intros k. induction k as [|s k IHk]; [done|].
    rewrite fmap_cons, filter_cons_True by done. by rewrite IHk. }
  rewrite length_fmap, length_sublists. simpl.
  assert (0 < 2 ^ length l) by (apply Nat.neq_0_lt_0, Nat.pow_nonzero; lia). lia.
Qed.

Lemma NoDup_sublists {A} (l : list A) : NoDup l → NoDup (sublists l).
Proof.
  induction 1 as [|x l Hx Hl IH]; [apply NoDup_singleton|].
  simpl. apply NoDup_app. split; [|split; [|done]].
  - apply NoDup_fmap_2; [|done]. by intros s1 s2 [= ->].
  - intros s (s' & -> & _)%list_elem_of_fmap Hs%elem_of_sublists.
    apply Hx. eapply elem_of_sublist; [|exact Hs]. left.
Qed.

(** Two sub-lists of a list without repetition that have the same members
    are the same list. *)
Lemma sublist_ext {A} (k l1 l2 : list A) :
  NoDup k → l1 `sublist_of` k → l2 `sublist_of` k →
  (∀ x, x ∈ l1 ↔ x ∈ l2) → l1 = l2.
Proof.
  intros Hk. revert l1 l2. induction Hk as [|x k Hx Hk IH]; intros l1 l2 H1 H2 Hsame.
  { apply sublist_nil_r in H1, H2. by subst. }
  apply sublist_cons_r in H1 as [H1|(l1' & -> & H1)];
    apply sublist_cons_r in H2 as [H2|(l2' & -> & H2)].
  - by apply IH.
  - destruct Hx. eapply elem_of_sublist; [|exact H1]. apply Hsame. left.
  - destruct Hx. eapply elem_of_sublist; [|exact H2]. apply Hsame. left.
  - f_equal. apply IH; [done..|]. intros y. split; intros Hy.
    + assert (y ∈ x :: l2') as [->|?]%elem_of_cons by (apply Hsame; by right); [|done].
      destruct Hx. by eapply elem_of_sublist.
    + assert (y ∈ x :: l1') as [->|?]%elem_of_cons by (apply Hsame; by right); [|done].
      destruct Hx. by eapply elem_of_sublist.
Qed.

(** The two enumerations of the systems of a target agree. *)
Lemma constituent_systems_powerset (elems : list string) :
  elems ≠ [] → Quaternary.constituent_systems elems = powerset_systems elems.
Proof.
  intros Hne. apply set_eq. intros s.
  rewrite elem_of_constituent_systems, elem_of_powerset_systems. split.
  - intros (comb & Hlen & Hall & ->).
    assert (∀ x, x ∈ filter (λ x, x ∈ comb) elems ↔ x ∈ comb) as Hsame.
    { intros x. rewrite list_elem_of_filter. split; [by intros [? _]|].
      intros Hx. split; [done|]. by apply (proj1 (Forall_forall _ _) Hall). }
    exists (filter (λ x, x ∈ comb) elems). split; [apply sublist_filter|]. split.
    + destruct comb as [|x comb]; [by destruct elems|].
      intros Hnil. assert (x ∈ filter (λ y, y ∈ x :: comb) elems) as Hx
        by (apply Hsame; left).
      rewrite Hnil in Hx. by apply elem_of_nil in Hx.
    + by apply label_of_ext.
  - intros (sub & Hsub & Hsubne & ->).
    destruct (tuple_of_subset elems sub Hsubne) as (comb & Hlen & Hall & Hsame).
    + intros x Hx. by eapply elem_of_sublist.
    + exists comb. split; [done|]. split; [done|]. by apply label_of_ext.
Qed.

(** X17. A target of [n] distinct element symbols, [n] at least one, has
    [2^n - 1] constituent systems: one for each non-empty subset, as in the
    example of the docstring (seven systems for Na-Fe-O). *)
Theorem number_of_constituent_systems (elems : list string) :
  elems ≠ [] → NoDup elems → Forall (λ y, is_symbol y = true) elems →
  size (Quaternary.constituent_systems elems) = 2 ^ length elems - 1.
Proof.
  intros Hne Hnd Hsym. rewrite (constituent_systems_powerset elems Hne).
  unfold powerset_systems. rewrite size_list_to_set.
  { by rewrite length_fmap, length_nonempty_sublists. }
  apply NoDup_fmap_2_strong; [|by apply NoDup_filter, NoDup_sublists].
  intros s1 s2 [_ Hs1%elem_of_sublists]%list_elem_of_filter
               [_ Hs2%elem_of_sublists]%list_elem_of_filter Hlabel.
  assert (∀ s, s `sublist_of` elems → Forall (λ y, is_symbol y = true) s) as Hsub.
  { intros s Hs. apply Forall_forall. intros y Hy.
    apply (proj1 (Forall_forall _ _) Hsym). by eapply elem_of_sublist. }
  apply label_inj in Hlabel; [|by apply sorted_set_symbols, Hsub..].
  apply (sublist_ext elems); [done..|]. intros x.
  by rewrite <-(elem_of_sorted_set s1), <-(elem_of_sorted_set s2), Hlabel.
Qed.

Lemma number_of_constituent_systems_witness :
  ["Na"; "Fe"; "O"] ≠ [] ∧ NoDup ["Na"; "Fe"; "O"] ∧
  Forall (λ y, is_symbol y = true) ["Na"; "Fe"; "O"] ∧
  size (Quaternary.constituent_systems ["Na"; "Fe"; "O"]) = 2 ^ length ["Na"; "Fe"; "O"] - 1.
Proof.
  assert (["Na"; "Fe"; "O"] ≠ @nil string) as Hne by discriminate.
  assert (NoDup ["Na"; "Fe"; "O"]) as Hnd by (apply (bool_decide_unpack _); reflexivity).
  assert (Forall (λ y, is_symbol y = true) ["Na"; "Fe"; "O"]) as Hsym by (repeat constructor).
  split; [exact Hne|]. split; [exact Hnd|]. split; [exact Hsym|].
  exact (number_of_constituent_systems ["Na"; "Fe"; "O"] Hne Hnd Hsym).
Defined.

(** Without an element there is one system, the empty label; a repeated
    element adds none. *)
Example number_of_systems_edge :
  size (Quaternary.constituent_systems []) = 1 ∧
  size (Quaternary.constituent_systems ["Na"; "Na"; "O"]) = 3.
Proof. vm_compute. done. Qed.

(** ** Deduplicating again *)

Section DedupAgain.
Context `{!Pymatgen}.

Lemma drop_duplicates_from_id seen (df : list Parsed) :
  NoDup (pretty_comp <$> df) → (∀ r, r ∈ df → pretty_comp r ∉ seen) →
  drop_duplicates_from seen df = df.
Proof.
  revert seen. induction df as [|r df IH]; intros seen Hnd Hseen; [done|].
  rewrite fmap_cons in Hnd. apply NoDup_cons in Hnd as [Hr Hnd]. simpl.
  rewrite decide_False by (apply Hseen; left). f_equal. apply IH; [done|].
  intros r' Hr'. apply not_elem_of_union. split; [|apply Hseen; by right].
  apply not_elem_of_singleton. intros E. apply Hr. rewrite <-E.
  by apply list_elem_of_fmap_2.
Qed.

End DedupAgain.

(** X18. Removing duplicates is idempotent, and it leaves a frame in which
    no reduced formula occurs twice as it is. *)
Theorem drop_duplicates_idempotent `{!Pymatgen} (df : list Parsed) :
  drop_duplicates (drop_duplicates df) = drop_duplicates df ∧
  (NoDup (pretty_comp <$> df) → drop_duplicates df = df).
Proof.
  split.
  - apply drop_duplicates_from_id; [apply drop_duplicates_from_NoDup|].
    intros r _. apply not_elem_of_empty.
  - intros Hnd. apply drop_duplicates_from_id; [done|]. intros r _. apply not_elem_of_empty.
Qed.

Section Example_X18.
Import Reference.

Lemma drop_duplicates_idempotent_witness :
  NoDup (pretty_comp <$> ((λ e : Entry, parsed e) <$> cleaned)) ∧
  drop_duplicates (drop_duplicates ((λ e : Entry, parsed e) <$> cleaned)) =
    drop_duplicates ((λ e : Entry, parsed e) <$> cleaned) ∧
  drop_duplicates ((λ e : Entry, parsed e) <$> cleaned) = (λ e : Entry, parsed e) <$> cleaned.
Proof.
  assert (NoDup (pretty_comp <$> ((λ e : Entry, parsed e) <$> cleaned))) as Hnd
    by (apply (bool_decide_unpack _); vm_compute; exact I).
  split; [exact Hnd|]. split.
  - exact (proj1 (drop_duplicates_idempotent ((λ e : Entry, parsed e) <$> cleaned))).
  - exact (proj2 (drop_duplicates_idempotent ((λ e : Entry, parsed e) <$> cleaned)) Hnd).
Defined.

End Example_X18.

(** ** The two derived columns *)

(** X19. The columns [nelems] and [system] of an entry agree: the label
    is empty exactly when the entry has no element, and otherwise it has
    [nelems] parts between hyphens. *)
Theorem nelems_counts_label_parts `{!Pandas, !Pymatgen} (table : list Line) cleaned (e : Entry) :
  load_oqmd table = Some cleaned → e ∈ cleaned →
  (system e = "" ↔ nelems e = 0) ∧
  (nelems e ≠ 0 → length (PyStr.split hyphen (system e)) = nelems e).
Proof.
  intros Hload He. pose proof (split_system table cleaned e Hload He) as Hsplit.
  pose proof (cleaned_symbols _ _ _ Hload He) as Hsym.
  destruct (cleaned_entry _ _ _ Hload He) as (_ & _ & _ & -> & Hjoin).
  destruct (symbols (comp_obj_of e)) as [|y ys] eqn:E.
  - split; [|done]. by rewrite Hjoin.
  - split; [|by rewrite Hsplit]. split; [|done]. rewrite Hjoin. intros Hnil.
    by apply label_nil in Hnil.
Qed.

Section Example_X19.
Import Reference.

Lemma nelems_counts_label_parts_witness :
  load_oqmd table = Some cleaned ∧
  ∀ e : Entry, e ∈ cleaned →
    (system e = "" ↔ nelems e = 0) ∧
    (nelems e ≠ 0 → length (PyStr.split hyphen (system e)) = nelems e).
Proof.
  assert (load_oqmd table = Some cleaned) as Hload by run_load.
  split; [exact Hload|]. intros e He.
  exact (nelems_counts_label_parts table cleaned e Hload He).
Defined.

End Example_X19.

(** ** The names of the exported files *)

Module PathFacts.

Lemma append_String c s t : String c s +:+ t = String c (s +:+ t).
Proof. done. Qed.

Lemma append_inj_prefix s t1 t2 : s +:+ t1 = s +:+ t2 → t1 = t2.
Proof.
  induction s as [|c s IH]; [done|]. rewrite !append_String. intros [= E]. by apply IH.
Qed.

Lemma free_of_append c s t :
  PyStr.free_of c (s +:+ t) = PyStr.free_of c s && PyStr.free_of c t.
Proof.
  induction s as [|d s IH]; [done|].
  rewrite append_String. simpl. by rewrite IH, andb_assoc.
Qed.

Lemma is_upper_not_lower c : is_upper c = true → is_lower c = false.
Proof.
  unfold is_upper, is_lower. intros [_ H2]%andb_prop. apply Nat.leb_le in H2.
  apply andb_false_iff. left. apply Nat.leb_gt. lia.
Qed.

(** A string reads in one way only as lower-case letters followed by a rest
    that is empty or starts with an upper-case letter. *)
Lemma lower_prefix_unique w1 w2 r1 r2 :
  all_lower w1 = true → all_lower w2 = true →
  (∀ c r, r1 = String c r → is_upper c = true) →
  (∀ c r, r2 = String c r → is_upper c = true) →
  w1 +:+ r1 = w2 +:+ r2 → w1 = w2 ∧ r1 = r2.
Proof.
  revert w2. induction w1 as [|c w1 IH]; intros [|d w2] H1 H2 Hr1 Hr2 E.
  - done.
  - rewrite append_String in E. simpl in E, H2. apply andb_prop in H2 as [Hd _].
    by rewrite (is_upper_not_lower d (Hr1 _ _ E)) in Hd.
  - rewrite append_String in E. simpl in E, H1. apply andb_prop in H1 as [Hc _].
    symmetry in E. by rewrite (is_upper_not_lower c (Hr2 _ _ E)) in Hc.
  - rewrite !append_String in E. injection E as -> E. simpl in H1, H2.
    apply andb_prop in H1 as [_ H1], H2 as [_ H2].
    destruct (IH w2 H1 H2 Hr1 Hr2 E) as [-> ->]. done.
Qed.

Lemma join_empty_cons x xs : PyStr.join "" (x :: xs) = x +:+ PyStr.join "" xs.
Proof. destruct xs; [by rewrite PyStrRoundTrip.append_nil_r|done]. Qed.

Lemma concat_symbols_start ys :
  Forall (λ y, is_symbol y = true) ys →
  ∀ c r, PyStr.join "" ys = String c r → is_upper c = true.
Proof.
  intros [|y ys' Hy _] c r E; [done|]. rewrite join_empty_cons in E.
  destruct y as [|d w]; [done|]. rewrite append_String in E. injection E as -> _.
  simpl in Hy. by apply andb_prop in Hy as [? _].
Qed.

(** Element symbols written one after the other can be read back: the
    upper-case letters mark where each one starts. *)
Lemma concat_symbols_inj xs ys :
  Forall (λ y, is_symbol y = true) xs → Forall (λ y, is_symbol y = true) ys →
  PyStr.join "" xs = PyStr.join "" ys → xs = ys.
Proof.
  intros Hxs. revert ys. induction Hxs as [|x xs Hx Hxs IH]; intros ys Hys E.
  - destruct Hys as [|y ys Hy Hys]; [done|]. rewrite join_empty_cons in E.
    destruct y; [done|]. rewrite append_String in E. discriminate E.
  - destruct Hys as [|y ys Hy Hys].
    + rewrite join_empty_cons in E. destruct x; [done|].
      rewrite append_String in E. discriminate E.
    + rewrite !join_empty_cons in E.
      destruct x as [|c w]; [done|]. destruct y as [|d v]; [done|].
      simpl in Hx, Hy. apply andb_prop in Hx as [_ Hw], Hy as [_ Hv].
      rewrite !append_String in E. injection E as -> E.
      destruct (lower_prefix_unique w v _ _ Hw Hv
                  (concat_symbols_start xs Hxs) (concat_symbols_start ys Hys) E) as [-> E'].
      f_equal. by apply IH.
Qed.

Lemma concat_symbols_free ys :
  Forall (λ y, is_symbol y = true) ys → PyStr.free_of hyphen (PyStr.join "" ys) = true.
Proof.
  induction 1 as [|y ys Hy _ IH]; [done|].
  by rewrite join_empty_cons, free_of_append, IH, (is_symbol_free y Hy).
Qed.

Lemma label_has_hyphen x y ys :
  PyStr.free_of hyphen (PyStr.join "-" (x :: y :: ys)) = false.
Proof.
  rewrite (PyStrRoundTrip.join_cons "-"), !free_of_append. simpl.
  by rewrite andb_false_r.
Qed.

(** The name of the quaternary files and the name of the pair files are
    the same only for one target of at most one element. *)
Lemma names_collide_iff s p :
  Forall (λ y, is_symbol y = true) s → Forall (λ y, is_symbol y = true) p →
  PyStr.join "" s = PyStr.join "-" p ↔ s = p ∧ length p ≤ 1.
Proof.
  intros Hs Hp. split.
  - intros E. destruct p as [|x [|y ys]].
    + split; [|simpl; lia]. by apply concat_symbols_inj.
    + split; [|simpl; lia]. by apply concat_symbols_inj.
    + pose proof (concat_symbols_free s Hs) as F. by rewrite E, label_has_hyphen in F.
  - intros [-> Hlen]. destruct p as [|x [|y ys]]; [done|done|simpl in Hlen; lia].
Qed.

Lemma names_collide_short p : length p ≤ 1 → PyStr.join "" p = PyStr.join "-" p.
Proof. destruct p as [|x [|y ys]]; [done|done|simpl; lia]. Qed.

Lemma datasets_join b :
  OsPath.join "datasets" b = if OsPath.starts_with_sep b then b else "datasets/" +:+ b.
Proof. unfold OsPath.join. by destruct (OsPath.starts_with_sep b). Qed.

Lemma absolute_ne_relative b1 b2 :
  OsPath.starts_with_sep b1 = true → b1 ≠ "datasets/" +:+ b2.
Proof.
  destruct b1 as [|c b1]; [done|]. simpl. intros ->%Ascii.eqb_eq.
  rewrite append_String. discriminate.
Qed.

(** Below one directory, different names are different paths, absolute
    names included. *)
Lemma datasets_join_inj b1 b2 :
  OsPath.join "datasets" b1 = OsPath.join "datasets" b2 → b1 = b2.
Proof.
  rewrite !datasets_join.
  destruct (OsPath.starts_with_sep b1) eqn:S1, (OsPath.starts_with_sep b2) eqn:S2; intros E.
  - done.
  - by destruct (absolute_ne_relative b1 b2 S1).
  - by destruct (absolute_ne_relative b2 b1 S2).
  - by apply append_inj_prefix in E.
Qed.

Lemma test_name_inj n m : test_set_data n = test_set_data m → n = m.
Proof.
  unfold test_set_data. intros E.
  by apply PyStrRoundTrip.append_inj_suffix in E as [? _].
Qed.

Lemma train_name_inj n m : train_set_data n = train_set_data m → n = m.
Proof.
  unfold train_set_data. intros E.
  by apply PyStrRoundTrip.append_inj_suffix in E as [? _].
Qed.

Lemma test_name_ne_train n m : test_set_data n ≠ train_set_data m.
Proof.
  unfold test_set_data, train_set_data. intros E.
  change (n +:+ "_tes" +:+ "t_set.data" = m +:+ "_trai" +:+ "n_set.data") in E.
  rewrite <-!PyStrRoundTrip.append_assoc in E.
  by apply PyStrRoundTrip.append_inj_suffix in E as [_ E].
Qed.

Lemma test_path_ne_train_path n m :
  OsPath.join "datasets" (test_set_data n) ≠ OsPath.join "datasets" (train_set_data m).
Proof. intros E%datasets_join_inj. by apply test_name_ne_train in E. Qed.

Lemma test_path_inj n m :
  OsPath.join "datasets" (test_set_data n) = OsPath.join "datasets" (test_set_data m) ↔ n = m.
Proof. split; [|by intros ->]. by intros E%datasets_join_inj%test_name_inj. Qed.

Lemma train_path_inj n m :
  OsPath.join "datasets" (train_set_data n) = OsPath.join "datasets" (train_set_data m) ↔ n = m.
Proof. split; [|by intros ->]. by intros E%datasets_join_inj%train_name_inj. Qed.

End PathFacts.

(** X20. A test set and a training set are never written to the same file,
    whatever the two targets are: the two file names end differently, and
    [os.path.join] keeps different names apart. *)
Theorem test_and_train_files_differ (a b : list string) :
  quaternary_test_path a ≠ quaternary_train_path b ∧
  quaternary_test_path a ≠ pair_train_path b ∧
  pair_test_path a ≠ quaternary_train_path b ∧
  pair_test_path a ≠ pair_train_path b.
Proof. repeat split; apply PathFacts.test_path_ne_train_path. Qed.

(** X21. For targets of element symbols, the file of a quaternary hold-out
    and the file of a pair hold-out are the same exactly when the two
    targets are the same list of at most one element; different quaternary
    targets, and different pair targets, have different files. *)
Theorem holdout_files_collide_iff (s p : list string) :
  Forall (λ y, is_symbol y = true) s → Forall (λ y, is_symbol y = true) p →
  (quaternary_test_path s = pair_test_path p ↔ s = p ∧ length p ≤ 1) ∧
  (quaternary_train_path s = pair_train_path p ↔ s = p ∧ length p ≤ 1) ∧
  (∀ s', Forall (λ y, is_symbol y = true) s' →
         quaternary_test_path s = quaternary_test_path s' ↔ s = s') ∧
  (∀ p', Forall (λ y, is_symbol y = true) p' →
         pair_test_path p = pair_test_path p' ↔ p = p').
Proof.
  intros Hs Hp. unfold quaternary_test_path, quaternary_train_path, pair_test_path.
  unfold pair_train_path. split; [|split; [|split]].
  - by rewrite PathFacts.test_path_inj, PathFacts.names_collide_iff.
  - by rewrite PathFacts.train_path_inj, PathFacts.names_collide_iff.
  - intros s' Hs'. rewrite PathFacts.test_path_inj. split; [|by intros ->].
    by apply PathFacts.concat_symbols_inj.
  - intros p' Hp'. rewrite PathFacts.test_path_inj. split; [|by intros ->].
    by apply label_inj.
Qed.

Lemma holdout_files_collide_iff_witness :
  Forall (λ y, is_symbol y = true) ["Na"; "Fe"; "Mn"; "O"] ∧
  Forall (λ y, is_symbol y = true) ["Ti"; "O"] ∧
  (quaternary_test_path ["Na"; "Fe"; "Mn"; "O"] = pair_test_path ["Ti"; "O"] ↔
     ["Na"; "Fe"; "Mn"; "O"] = ["Ti"; "O"] ∧ length ["Ti"; "O"] ≤ 1) ∧
  (quaternary_train_path ["Na"; "Fe"; "Mn"; "O"] = pair_train_path ["Ti"; "O"] ↔
     ["Na"; "Fe"; "Mn"; "O"] = ["Ti"; "O"] ∧ length ["Ti"; "O"] ≤ 1) ∧
  (∀ s', Forall (λ y, is_symbol y = true) s' →
         quaternary_test_path ["Na"; "Fe"; "Mn"; "O"] = quaternary_test_path s' ↔
         ["Na"; "Fe"; "Mn"; "O"] = s') ∧
  (∀ p', Forall (λ y, is_symbol y = true) p' →
         pair_test_path ["Ti"; "O"] = pair_test_path p' ↔ ["Ti"; "O"] = p').
Proof.
  assert (Forall (λ y, is_symbol y = true) ["Na"; "Fe"; "Mn"; "O"]) as Hs by (repeat constructor).
  assert (Forall (λ y, is_symbol y = true) ["Ti"; "O"]) as Hp by (repeat constructor).
  split; [exact Hs|]. split; [exact Hp|].
  exact (holdout_files_collide_iff ["Na"; "Fe"; "Mn"; "O"] ["Ti"; "O"] Hs Hp).
Defined.

(** The paths of the notebook, and two names that the filters accept as
    targets but that are read as paths of their own. *)
Example paths_of_the_notebook :
  quaternary_test_path ["Na"; "Fe"; "Mn"; "O"] = "datasets/NaFeMnO_test_set.data" ∧
  quaternary_train_path ["Na"; "Fe"; "Mn"; "O"] = "datasets/NaFeMnO_train_set.data" ∧
  pair_test_path ["Ti"; "O"] = "datasets/Ti-O_test_set.data" ∧
  pair_train_path ["Ti"; "O"] = "datasets/Ti-O_train_set.data" ∧
  pair_test_path ["/tmp/x"; "O"] = "/tmp/x-O_test_set.data" ∧
  quaternary_test_path [] = "datasets/_test_set.data".
Proof. vm_compute. done. Qed.

(** ** The export as a whole *)

Section ExportFacts.
Context `{!Pandas, !Pymatgen}.


End ExportFacts.


Section Example_X22.
Import Reference.


(** The two test sets on the table of oxides, and the export on the small
    reference table, where the first test set has one row and the call of
    [sample] stops the notebook. *)
Example export_on_the_reference_tables :
  (λ e : Entry, comp e) <$> Quaternary.get_test_data oxides_cleaned ["Na"; "Fe"; "O"] =
    ["FeNaO2"; "Na2O"; "Fe2O3"; "Fe3O4"; "FeO"; "NaO2"] ∧
  (λ e : Entry, comp e) <$> Pairwise.get_test_data oxides_cleaned ["Fe"; "O"] =
    ["FeNaO2"; "Fe2O3"; "Fe3O4"; "FeO"; "NaFeO3"] ∧
  length (Quaternary.get_test_data cleaned ["Na"; "Fe"; "O"]) = 2 ∧
  export_holdouts cleaned ["Na"; "Fe"; "O"] ["Fe"; "O"] ∅ = None.
Proof. repeat split; vm_compute; reflexivity. Qed.

End Example_X22.

(** * The round trip of an exported file *)

Module TextFacts.
Import Csv Tokenizer.









End TextFacts.

Section RoundTrip.
Context `{!Pandas}.





End RoundTrip.

(** In the notebook the exporter is given rows of the cleaned frame, and no
    composition of the cleaned frame is a text that pandas reads as
    missing: the load would have stopped on it. *)
Lemma cleaned_comp_not_na `{!Pandas, !Pymatgen} (table : list Line) cleaned (e : Entry) :
  load_oqmd table = Some cleaned → e ∈ cleaned → isna_text (comp e) = false.
Proof.
  intros Hload He. destruct (cleaned_entry _ _ _ Hload He) as (_ & Hc & _).
  apply Composition_Some in Hc as [Hna _]. unfold isna_text. by apply bool_decide_eq_false.
Qed.


Section Example_C7.
Import Reference.



(** A composition with a blank comes back, since the writer puts it between
    quotes; one with a tab is written as it is and makes a line of three
    fields, on which the reader stops. *)
Example fields_with_blanks :
  read_magpie (to_csv [("Na Cl", Float64.of_int (-1))]) =
    Some [(Some "Na Cl", Float64.of_int (-1))] ∧
  read_magpie (to_csv [("Na" +:+ String Csv.TAB "Cl", Float64.of_int (-1))]) = None ∧
  read_magpie (to_csv [("NaCl", S754_nan)]) = Some [(Some "NaCl", S754_nan)] ∧
  read_magpie (to_csv []) = Some [].
Proof. repeat split; vm_compute; reflexivity. Qed.

End Example_C7.
